(** * m3u8_cutter: the playlist cutter of [main.py], embedded and verified

    The development follows [main.py] function by function:
    [time_to_seconds], [filter_segments], [write_output], [parse_m3u8],
    [convert_to_mp4] and [main] (from the parsed arguments on).

    Python values are modelled as follows.
    - A [str] is a [string]; each [ascii] stands for the code point of the
      same number, so the texts covered are those over code points 0..255.
    - An [int] is a [Z]; a [float] is a binary64 number, a [spec_float]
      with precision 53 and maximal exponent 1024.
    - A raised exception is the [Raise] case of [res]; the messages of the
      exceptions raised by built-ins are abbreviated (the program never
      inspects them), those raised by the program are verbatim.
    - Input and output are a trace of [event]s; the network and
      [urllib.parse.urljoin] are parameters of [parse_m3u8], and so is the
      interpreter's limit on the digits of an integer literal.  The file
      system accepts every operation: [write_output] is what the function
      does on a file that can be opened and written. *)

From Stdlib Require Import ZArith List Bool Ascii String Lia.
From Stdlib Require Import Floats.SpecFloat.
Import ListNotations.

Open Scope string_scope.
Open Scope Z_scope.

(** ** Exceptions and results *)

(** [ValueError] and [IndexError] stand for an exception of the class or
    of one of its subclasses; [OtherError] for an exception of any other
    class [cls] that is an [Exception]. *)
Inductive exn : Type :=
| ValueError (msg : string)
| IndexError (msg : string)
| OtherError (cls msg : string).

Inductive res (A : Type) : Type :=
| Ok (a : A)
| Raise (e : exn).

Arguments Ok {A} a.
Arguments Raise {A} e.

Definition bind {A B : Type} (r : res A) (k : A -> res B) : res B :=
  match r with
  | Ok a => k a
  | Raise e => Raise e
  end.

Notation "x <- r ;; k" := (bind r (fun x => k))
  (at level 61, r at next level, right associativity).

(** ** Built-in operations on [str] *)

Definition code (c : ascii) : Z := Z.of_N (N_of_ascii c).

Definition in_range (lo hi : Z) (c : ascii) : bool :=
  (lo <=? code c) && (code c <=? hi).

(** [str.isspace] of one character: what [str.strip] removes. *)
Definition isspace (c : ascii) : bool :=
  in_range 9 13 c || in_range 28 32 c || (code c =? 133) || (code c =? 160).

(** The characters that [int] and [float] skip around a literal: the ASCII
    ones of C's [isspace], and the two other white-space characters below
    256, which both built-ins first turn into a blank. *)
Definition isspace_numeric (c : ascii) : bool :=
  in_range 9 13 c || (code c =? 32) || (code c =? 133) || (code c =? 160).

Fixpoint lstrip_by (p : ascii -> bool) (s : string) : string :=
  match s with
  | EmptyString => EmptyString
  | String c s' => if p c then lstrip_by p s' else s
  end.

Fixpoint rstrip_by (p : ascii -> bool) (s : string) : string :=
  match s with
  | EmptyString => EmptyString
  | String c s' =>
      match rstrip_by p s' with
      | EmptyString => if p c then EmptyString else String c EmptyString
      | r => String c r
      end
  end.

(** [s.strip()] *)
Definition strip (s : string) : string := rstrip_by isspace (lstrip_by isspace s).

(** [s.rstrip(",")] *)
Definition rstrip_comma (s : string) : string :=
  rstrip_by (fun c => Ascii.eqb c ","%char) s.

(** [s.startswith(p)] *)
Definition startswith (s p : string) : bool := String.prefix p s.

(** [s.endswith(suf)]: some tail of [s] is [suf]. *)
Fixpoint endswith (s suf : string) : bool :=
  String.eqb s suf ||
  match s with
  | EmptyString => false
  | String _ s' => endswith s' suf
  end.

(** [s.split(sep)] for a separator of one character. *)
Fixpoint split (sep : ascii) (s : string) : list string :=
  match s with
  | EmptyString => [EmptyString]
  | String c s' =>
      if Ascii.eqb c sep then EmptyString :: split sep s'
      else match split sep s' with
           | h :: t => String c h :: t
           | [] => [String c EmptyString]
           end
  end.

(** Line boundaries of [str.splitlines] below code point 256. *)
Definition is_linebreak (c : ascii) : bool :=
  in_range 10 13 c || in_range 28 30 c || (code c =? 133).

(** [s.splitlines()], with the line being read in [cur]: a carriage return
    followed by a line feed is one boundary, and a final boundary opens no
    empty last line. *)
Fixpoint splitlines_from (cur s : string) : list string :=
  match s with
  | EmptyString => if String.eqb cur EmptyString then [] else [cur]
  | String c s' =>
      if is_linebreak c then
        cur ::
          match s' with
          | String c' s'' =>
              if (code c =? 13) && (code c' =? 10) then splitlines_from EmptyString s''
              else splitlines_from EmptyString s'
          | EmptyString => []
          end
      else splitlines_from (cur ++ String c EmptyString) s'
  end.

Definition splitlines (s : string) : list string := splitlines_from EmptyString s.

(** ** Built-in numbers *)

Definition is_digit (c : ascii) : bool := in_range 48 57 c.

Definition digit_value (c : ascii) : Z := code c - 48.

Definition is_char (c d : ascii) : bool := Ascii.eqb c d.

(** Python numbers as the program meets them: [total_time] starts as the
    [int] 0 and is a [float] from the first addition on. *)
Inductive number : Type :=
| PyInt (z : Z)
| PyFloat (f : spec_float).

Definition b64_add : spec_float -> spec_float -> spec_float := SFadd 53 1024.
Definition b64_div : spec_float -> spec_float -> spec_float := SFdiv 53 1024.

(** [float(z)] for an [int] (round to nearest, ties to even). *)
Definition b64_of_Z (z : Z) : spec_float := binary_normalize 53 1024 z 0 false.

(** The float nearest to [m * 10^e], signed: what a correctly rounding
    decimal-to-binary conversion returns. *)
Definition b64_of_decimal (neg : bool) (m e : Z) : spec_float :=
  match m with
  | Zpos p =>
      b64_div (S754_finite neg (Z.to_pos (Zpos p * 10 ^ Z.max e 0)) 0)
              (S754_finite false (Z.to_pos (10 ^ Z.max (- e) 0)) 0)
  | _ => S754_zero neg
  end.

(** [x >= z] for a [float] and an [int]: Python compares the two exactly. *)
Definition b64_ge_Z (x : spec_float) (z : Z) : bool :=
  match x with
  | S754_nan => false
  | S754_infinity s => negb s
  | S754_zero _ => z <=? 0
  | S754_finite s m e =>
      if 0 <=? e then z <=? cond_Zopp s (Zpos m * 2 ^ e)
      else z * 2 ^ (- e) <=? cond_Zopp s (Zpos m)
  end.

(** [a >= z] with an [int] on the right. *)
Definition num_ge (a : number) (z : Z) : bool :=
  match a with
  | PyInt x => z <=? x
  | PyFloat f => b64_ge_Z f z
  end.

(** [x <= z] for a [float] and an [int], exactly as well. *)
Definition b64_le_Z (x : spec_float) (z : Z) : bool :=
  match x with
  | S754_nan => false
  | S754_infinity s => s
  | S754_zero _ => 0 <=? z
  | S754_finite s m e =>
      if 0 <=? e then cond_Zopp s (Zpos m * 2 ^ e) <=? z
      else cond_Zopp s (Zpos m) <=? z * 2 ^ (- e)
  end.

(** [a <= z] with an [int] on the right. *)
Definition num_le (a : number) (z : Z) : bool :=
  match a with
  | PyInt x => x <=? z
  | PyFloat f => b64_le_Z f z
  end.

(** [a + d] with a [float] on the right. *)
Definition num_add (a : number) (d : spec_float) : number :=
  match a with
  | PyInt x => PyFloat (b64_add (b64_of_Z x) d)
  | PyFloat f => PyFloat (b64_add f d)
  end.

(** The digits of an integer literal, where single underscores may stand
    between digits: the value read so far, the number of digits, whether
    the last character was an underscore.  The scan stops at the first
    character that is neither, and a literal may not end in an underscore. *)
Fixpoint scan_digits (s : string) (acc count : Z) (after_us : bool)
  : option (Z * Z * string) :=
  match s with
  | EmptyString => if after_us then None else Some (acc, count, EmptyString)
  | String c s' =>
      if is_digit c then scan_digits s' (10 * acc + digit_value c) (count + 1) false
      else if is_char c "_" then
        if after_us then None else scan_digits s' acc count true
      else if after_us then None else Some (acc, count, s)
  end.

(** A mantissa: digits to the first character that is none, continuing
    the value and the count given. *)
Fixpoint span_digits (s : string) (acc count : Z) : Z * Z * string :=
  match s with
  | EmptyString => (acc, count, EmptyString)
  | String c s' =>
      if is_digit c then span_digits s' (10 * acc + digit_value c) (count + 1)
      else (acc, count, s)
  end.

(** [float] allows an underscore only between two digits; [prev] is the
    character before [s].  The result is the text without underscores. *)
Fixpoint drop_underscores (prev : ascii) (s : string) : option string :=
  match s with
  | EmptyString => if is_char prev "_" then None else Some EmptyString
  | String c s' =>
      if is_char c "_" then
        if is_digit prev then drop_underscores c s' else None
      else if is_char prev "_" && negb (is_digit c) then None
      else option_map (String c) (drop_underscores c s')
  end.

Definition parse_sign (s : string) : bool * string :=
  match s with
  | String c r =>
      if is_char c "+" then (false, r)
      else if is_char c "-" then (true, r)
      else (false, s)
  | EmptyString => (false, s)
  end.

Definition to_lower (c : ascii) : ascii :=
  if in_range 65 90 c then ascii_of_N (N_of_ascii c + 32) else c.

Fixpoint lower (s : string) : string :=
  match s with
  | EmptyString => EmptyString
  | String c s' => String (to_lower c) (lower s')
  end.

(** What may follow a mantissa: nothing, or [e] or [E], an optional sign
    and at least one digit, to the end of the text. *)
Definition parse_exponent (s : string) : option Z :=
  match s with
  | EmptyString => Some 0
  | String c r =>
      if is_char c "e" || is_char c "E" then
        let '(neg, r1) := parse_sign r in
        let '(v, count, rest) := span_digits r1 0 0 in
        if count =? 0 then None
        else match rest with
             | EmptyString => Some (if neg then - v else v)
             | _ => None
             end
      else None
  end.

(** An unsigned decimal literal [digits [. digits] [exponent]] with a
    digit before or after the point, as [(m, e)] for the value [m * 10^e]. *)
Definition parse_decimal (s : string) : option (Z * Z) :=
  let '(m1, n1, r1) := span_digits s 0 0 in
  let '(m2, n2, r2) :=
    match r1 with
    | String c r => if is_char c "." then span_digits r m1 0 else (m1, 0, r1)
    | EmptyString => (m1, 0, r1)
    end in
  if n1 + n2 =? 0 then None
  else match parse_exponent r2 with
       | Some e => Some (m2, e - n2)
       | None => None
       end.

Definition float_error : exn := ValueError "could not convert string to float".

(** [float(s)] *)
Definition float_of_str (s : string) : res spec_float :=
  let s1 := rstrip_by isspace_numeric (lstrip_by isspace_numeric s) in
  match drop_underscores zero s1 with
  | None => Raise float_error
  | Some t =>
      let '(neg, u) := parse_sign t in
      let w := lower u in
      if String.eqb w "inf" || String.eqb w "infinity" then Ok (S754_infinity neg)
      else if String.eqb w "nan" then Ok S754_nan
      else match parse_decimal u with
           | Some (m, e) => Ok (b64_of_decimal neg m e)
           | None => Raise float_error
           end
  end.

Section Interpreter.

(** [sys.get_int_max_str_digits()]: 0 switches the limit off (and is how
    interpreters before 3.11 behave); the interpreter allows no other
    value below 640 and checks no literal of 640 digits or fewer. *)
Variable max_str_digits : Z.

Definition int_error : exn := ValueError "invalid literal for int() with base 10".

(** [int(s)] *)
Definition int_of_str (s : string) : res Z :=
  let s1 := lstrip_by isspace_numeric s in
  let '(neg, s2) := parse_sign s1 in
  match s2 with
  | String c _ =>
      if is_char c "_" then Raise int_error
      else
        match scan_digits s2 0 0 false with
        | Some (v, count, rest) =>
            if count =? 0 then Raise int_error
            else if (640 <? count) && (0 <? max_str_digits) && (max_str_digits <? count)
            then Raise (ValueError "Exceeds the limit for integer string conversion")
            else
              match lstrip_by isspace_numeric rest with
              | EmptyString => Ok (if neg then - v else v)
              | _ => Raise int_error
              end
        | None => Raise int_error
        end
  | EmptyString => Raise int_error
  end.

(** [a, b, c = map(f, xs)]: the items are computed one by one as the
    unpacking asks for them, a fourth one included when there is one. *)
Definition unpack3 {A : Type} (f : string -> res A) (xs : list string) : res (A * A * A) :=
  match xs with
  | [] => Raise (ValueError "not enough values to unpack (expected 3, got 0)")
  | [x] =>
      _ <- f x ;;
      Raise (ValueError "not enough values to unpack (expected 3, got 1)")
  | [x; y] =>
      _ <- f x ;; _ <- f y ;;
      Raise (ValueError "not enough values to unpack (expected 3, got 2)")
  | [x; y; z] =>
      a <- f x ;; b <- f y ;; c <- f z ;; Ok (a, b, c)
  | x :: y :: z :: w :: _ =>
      _ <- f x ;; _ <- f y ;; _ <- f z ;; _ <- f w ;;
      Raise (ValueError "too many values to unpack (expected 3)")
  end.

(** ** [time_to_seconds] *)

Definition time_format_error : exn := ValueError "Invalid time format. Use hh:mm:ss.".

Definition time_to_seconds (time_str : string) : res Z :=
  match
    hms <- unpack3 int_of_str (split ":" time_str) ;;
    let '(h, m, s) := hms in
    Ok (h * 3600 + m * 60 + s)
  with
  | Ok v => Ok v
  | Raise (ValueError _) => Raise time_format_error
  | Raise e => Raise e
  end.

End Interpreter.

(** ** [filter_segments] *)

(** The local variables of the loop. *)
Record loop_state : Type := mkState {
  total_time : number;
  inside_range : bool;
  result : list string;
  add_start : bool
}.

Definition init_state : loop_state :=
  {| total_time := PyInt 0; inside_range := false; result := []; add_start := true |}.

Definition set_total_time (t : number) (st : loop_state) : loop_state :=
  {| total_time := t; inside_range := inside_range st;
     result := result st; add_start := add_start st |}.

Definition set_inside_range (b : bool) (st : loop_state) : loop_state :=
  {| total_time := total_time st; inside_range := b;
     result := result st; add_start := add_start st |}.

Definition set_add_start (b : bool) (st : loop_state) : loop_state :=
  {| total_time := total_time st; inside_range := inside_range st;
     result := result st; add_start := b |}.

(** [result.append(line)] *)
Definition append (line : string) (st : loop_state) : loop_state :=
  {| total_time := total_time st; inside_range := inside_range st;
     result := (result st ++ [line])%list; add_start := add_start st |}.

(** How an iteration ends: the loop goes on, or [break] leaves it. *)
Inductive flow : Type :=
| Next (st : loop_state)
| Break (st : loop_state).

Definition flow_state (f : flow) : loop_state :=
  match f with
  | Next st => st
  | Break st => st
  end.

(** [float(line.split(":")[1].rstrip(","))] *)
Definition extinf_duration (line : string) : res spec_float :=
  match nth_error (split ":" line) 1 with
  | Some field => float_of_str (rstrip_comma field)
  | None => Raise (IndexError "list index out of range")
  end.

(** The two [if]s that close the loop body. *)
Definition loop_tail (line : string) (st : loop_state) : loop_state :=
  let st1 := if add_start st then append line st else st in
  if inside_range st1 && endswith line ".ts" then append line st1 else st1.

Definition loop_body (start_seconds end_seconds : Z) (st : loop_state) (raw : string)
  : res flow :=
  let line := strip raw in
  if startswith line "#EXTINF" then
    let st1 := set_add_start false st in
    duration <- extinf_duration line ;;
    let st2 :=
      if num_ge (total_time st1) start_seconds then set_inside_range true st1 else st1 in
    if num_ge (total_time st2) end_seconds then Ok (Break st2)
    else
      let st3 := set_total_time (num_add (total_time st2) duration) st2 in
      let st4 := if inside_range st3 then append line st3 else st3 in
      Ok (Next (loop_tail line st4))
  else Ok (Next (loop_tail line st)).

Fixpoint for_loop (start_seconds end_seconds : Z) (lines : list string) (st : loop_state)
  : res flow :=
  match lines with
  | [] => Ok (Next st)
  | raw :: rest =>
      f <- loop_body start_seconds end_seconds st raw ;;
      match f with
      | Next st' => for_loop start_seconds end_seconds rest st'
      | Break st' => Ok (Break st')
      end
  end.

Definition filter_segments (lines : list string) (start_seconds end_seconds : Z)
  : res (list string) :=
  f <- for_loop start_seconds end_seconds lines init_state ;;
  Ok (result (flow_state f)).

(** ** Input and output *)

Inductive event : Type :=
| EvGet (url : string)
| EvPrint (msg : string)
| EvOpen (path : string)
| EvWrite (path data : string)
| EvClose (path : string).

(** A computation with effects: the events it causes, in order, and how it
    ends.  Nothing happens after an exception. *)
Definition io (A : Type) : Type := (list event * res A)%type.

Definition io_ret {A : Type} (a : A) : io A := ([], Ok a).

Definition io_bind {A B : Type} (m : io A) (k : A -> io B) : io B :=
  match m with
  | (tr, Ok a) => let '(tr', r) := k a in ((tr ++ tr')%list, r)
  | (tr, Raise e) => (tr, Raise e)
  end.

Definition emit (e : event) : io unit := ([e], Ok tt).

Definition lift {A : Type} (r : res A) : io A := ([], r).

Notation "x <~ m ;; k" := (io_bind m (fun x => k))
  (at level 61, m at next level, right associativity).

Definition nl : string := String (ascii_of_nat 10) EmptyString.

(** ** [write_output] *)

Fixpoint write_lines (output_file base_url : string) (lines : list string) : io unit :=
  match lines with
  | [] => io_ret tt
  | line :: rest =>
      _ <~ (if endswith line ".ts"
            then emit (EvWrite output_file (base_url ++ "/" ++ line ++ nl))
            else emit (EvWrite output_file (line ++ nl))) ;;
      write_lines output_file base_url rest
  end.

Definition write_output (output_file : string) (filtered_segments : list string)
  (base_url : string) : io unit :=
  _ <~ emit (EvOpen output_file) ;;
  _ <~ write_lines output_file base_url filtered_segments ;;
  _ <~ emit (EvWrite output_file ("#EXT-X-ENDLIST" ++ nl)) ;;
  _ <~ emit (EvClose output_file) ;;
  emit (EvPrint ("New m3u8 file saved as " ++ output_file)).

(** What a trace leaves in the file at [path]: opening for writing empties
    the file, each write adds to its end. *)
Fixpoint file_records (path : string) (tr : list event) (acc : list string) : list string :=
  match tr with
  | [] => acc
  | EvOpen p :: tr' => file_records path tr' (if String.eqb p path then [] else acc)
  | EvWrite p data :: tr' =>
      file_records path tr' (if String.eqb p path then (acc ++ [data])%list else acc)
  | _ :: tr' => file_records path tr' acc
  end.

Definition is_file_event (e : event) : bool :=
  match e with
  | EvOpen _ | EvWrite _ _ | EvClose _ => true
  | _ => false
  end.

(** ** [parse_m3u8] *)

(** What [requests.get(url, timeout=10)] and [raise_for_status] give: a
    response with a text, a [requests.RequestException], or an exception
    that is no [requests.RequestException] (as the [LocationParseError] of
    urllib3, a [ValueError], for a URL it cannot read). *)
Inductive response : Type :=
| Response (text : string)
| RequestException (msg : string)
| GetRaised (e : exn).

Section World.

Variable max_str_digits : Z.
Variable http_get : string -> response.
Variable urljoin : string -> string -> string.

Definition parse_m3u8 (url start_time end_time output_file : string) : io unit :=
  _ <~ emit (EvGet url) ;;
  match http_get url with
  | RequestException e =>
      emit (EvPrint ("Failed to download m3u8 file from " ++ url ++ ": " ++ e))
  | GetRaised e => lift (Raise e)
  | Response text =>
      let lines := splitlines text in
      let base_url := urljoin url "." in
      start_seconds <~ lift (time_to_seconds max_str_digits start_time) ;;
      end_seconds <~ lift (time_to_seconds max_str_digits end_time) ;;
      if end_seconds <=? start_seconds
      then lift (Raise (ValueError "Start time must be before end time."))
      else
        filtered_segments <~ lift (filter_segments lines start_seconds end_seconds) ;;
        write_output output_file filtered_segments base_url
  end.

End World.

(** ** [str.replace] *)

(** [s.replace(old, new)] for a non-empty [old], scanning from the left:
    [skip] is the number of characters of [s] still covered by the match
    that was just replaced. *)
Fixpoint replace_from (old new : string) (skip : nat) (s : string) : string :=
  match s with
  | EmptyString => EmptyString
  | String c s' =>
      match skip with
      | S k => replace_from old new k s'
      | O =>
          if String.prefix old s
          then new ++ replace_from old new (String.length old - 1) s'
          else String c (replace_from old new 0 s')
      end
  end.

(** With an empty [old], [new] goes before every character and at the end. *)
Fixpoint interleave (new s : string) : string :=
  match s with
  | EmptyString => EmptyString
  | String c s' => String c (new ++ interleave new s')
  end.

(** [s.replace(old, new)] *)
Definition replace (s old new : string) : string :=
  match old with
  | EmptyString => new ++ interleave new s
  | _ => replace_from old new 0 s
  end.

(** ** [convert_to_mp4] and [main] *)

(** What [subprocess.run(command, check=True)] meets: the process ends
    with a return code, or it cannot be started and an [OSError] is raised. *)
Inductive process_result : Type :=
| Exited (returncode : Z)
| LaunchFailed (msg : string).

(** What the entry point does, in order: the events of [parse_m3u8] and the
    prints of plain text, the start of a process, the print of a prefix
    followed by a caught exception, the print for a process that ended
    with a return code other than 0. *)
Inductive action : Type :=
| Io (e : event)
| Run (command : list string)
| Report (prefix : string) (e : exn)
| ReportExit (prefix : string) (command : list string) (returncode : Z).

(** How the entry point ends: it returns, or the [OSError] of a process
    that could not be started leaves it. *)
Inductive outcome : Type :=
| Returned
| Escaped (msg : string).

(** The arguments as [parser.parse_args()] hands them over; the reading
    of the command line itself is not modelled. *)
Record arguments : Type := mkArgs {
  args_url : string;
  args_start_time : string;
  args_end_time : string;
  args_output_file : string;
  args_convert : bool
}.

Section EntryPoint.

Variable max_str_digits : Z.
Variable http_get : string -> response.
Variable urljoin : string -> string -> string.
Variable run_process : list string -> process_result.

Definition convert_to_mp4 (m3u8_file output_mp4 : string) : list action * outcome :=
  let command :=
    ["ffmpeg"; "-y";
     "-protocol_whitelist"; "file,http,https,tcp,tls,crypto";
     "-i"; m3u8_file;
     "-c"; "copy";
     "-bsf:a"; "aac_adtstoasc";
     output_mp4] in
  match run_process command with
  | Exited returncode =>
      if returncode =? 0
      then ([Run command; Io (EvPrint ("Conversion complete: " ++ output_mp4))], Returned)
      else ([Run command; ReportExit "Error occurred during conversion: " command returncode],
            Returned)
  | LaunchFailed msg => ([Run command], Escaped msg)
  end.

Definition main (args : arguments) : list action * outcome :=
  let '(tr, r) :=
    parse_m3u8 max_str_digits http_get urljoin
      (args_url args) (args_start_time args) (args_end_time args) (args_output_file args) in
  let handled :=
    match r with
    | Ok _ => []
    | Raise (ValueError msg) => [Report "Error: " (ValueError msg)]
    | Raise e => [Report "An unexpected error occurred: " e]
    end in
  if args_convert args then
    let output_mp4 := replace (args_output_file args) ".m3u8" ".mp4" in
    let '(tr', o) := convert_to_mp4 (args_output_file args) output_mp4 in
    ((map Io tr ++ handled ++ tr')%list, o)
  else ((map Io tr ++ handled)%list, Returned).

End EntryPoint.

(** ** The vocabulary of the specification

    The notions below are not in the program; the theorems use them to
    speak about segments, their start times and what the scan keeps. *)

(** A duration-annotation line: one that, stripped, starts with the tag. *)
Definition is_duration_line (raw : string) : bool := startswith (strip raw) "#EXTINF".

(** A segment-reference line: one that, stripped, ends with the suffix. *)
Definition is_reference_line (raw : string) : bool := endswith (strip raw) ".ts".

(** The durations announced by the lines, in order. *)
Fixpoint durations (lines : list string) : list spec_float :=
  match lines with
  | [] => []
  | raw :: rest =>
      if is_duration_line raw then
        match extinf_duration (strip raw) with
        | Ok d => d :: durations rest
        | Raise _ => durations rest
        end
      else durations rest
  end.

(** The cumulative start time of a segment whose duration line comes after
    the lines [pre]: the durations of all earlier segments, added up from
    0 in the order of the playlist. *)
Definition cumulative_start (pre : list string) : number :=
  fold_left num_add (durations pre) (PyInt 0).

(** The scan of [filter_segments] over the lines [pre], from the start. *)
Definition scan (start_seconds end_seconds : Z) (pre : list string) : res flow :=
  for_loop start_seconds end_seconds pre init_state.

(** The line [raw], met after the lines [pre], is kept: the iteration that
    handles it makes [result] longer. *)
Definition kept_at (start_seconds end_seconds : Z) (pre : list string) (raw : string) : bool :=
  match scan start_seconds end_seconds pre with
  | Ok (Next st) =>
      match loop_body start_seconds end_seconds st raw with
      | Ok f => negb (Nat.eqb (List.length (result (flow_state f))) (List.length (result st)))
      | Raise _ => false
      end
  | _ => false
  end.

(** What a segment line contributes when it is kept: a duration line
    itself, a reference line itself (a line that is both, twice). *)
Definition segment_part (raw : string) : list string :=
  ((if is_duration_line raw then [strip raw] else []) ++
   (if is_reference_line raw then [strip raw] else []))%list.

(** Every header line, then every duration line and every reference line
    of the segments, in the order of the playlist. *)
Fixpoint keep_all (lines : list string) : list string :=
  match lines with
  | [] => []
  | raw :: rest =>
      if is_duration_line raw then flat_map segment_part lines
      else strip raw :: keep_all rest
  end.

(** The lines before the first duration line. *)
Fixpoint header_lines (lines : list string) : list string :=
  match lines with
  | [] => []
  | raw :: rest => if is_duration_line raw then [] else raw :: header_lines rest
  end.

(** Every character of [s] satisfies [p]. *)
Fixpoint all_chars (p : ascii -> bool) (s : string) : bool :=
  match s with
  | EmptyString => true
  | String c s' => p c && all_chars p s'
  end.

(** The characters an integer literal is made of. *)
Definition int_char (c : ascii) : bool :=
  isspace_numeric c || is_char c "+" || is_char c "-" || is_digit c || is_char c "_".

Definition not_colon (c : ascii) : bool := negb (is_char c ":").

(** The state after a duration line of duration [d] that does not end the
    scan. *)
Definition after_duration (start_seconds : Z) (st : loop_state) (line : string)
  (d : spec_float) : loop_state :=
  let inside := inside_range st || num_ge (total_time st) start_seconds in
  {| total_time := num_add (total_time st) d;
     inside_range := inside;
     result := (result st ++ (if inside then [line] else []) ++
                (if inside && endswith line ".ts" then [line] else []))%list;
     add_start := false |}.

(** The state in which a duration line ends the scan. *)
Definition at_break (start_seconds : Z) (st : loop_state) : loop_state :=
  {| total_time := total_time st;
     inside_range := inside_range st || num_ge (total_time st) start_seconds;
     result := result st;
     add_start := false |}.

(** The record that [write_output] writes for a line. *)
Definition output_record (base_url line : string) : string :=
  if endswith line ".ts" then base_url ++ "/" ++ line ++ nl else line ++ nl.

(** The playlist of the scenario: a header, four segments of 10 seconds,
    the end-of-list directive. *)
Definition playlist4 : list string :=
  ["#EXTM3U"; "#EXT-X-VERSION:3"; "#EXT-X-TARGETDURATION:10";
   "#EXTINF:10.0,"; "seg0.ts";
   "#EXTINF:10.0,"; "seg1.ts";
   "#EXTINF:10.0,"; "seg2.ts";
   "#EXTINF:10.0,"; "seg3.ts";
   "#EXT-X-ENDLIST"].

(** [pat] occurs in [s]: Python's [pat in s]. *)
Fixpoint contains (s pat : string) : bool :=
  String.prefix pat s ||
  match s with
  | EmptyString => false
  | String _ s' => contains s' pat
  end.

(** The characters a float literal is made of: blanks, underscores,
    digits, signs, the point, the exponent mark, and the letters of
    [inf], [infinity] and [nan] in either case. *)
Definition word_letter (c : ascii) : bool :=
  is_char c "i" || is_char c "n" || is_char c "f" || is_char c "t" ||
  is_char c "y" || is_char c "a".

Definition float_char (c : ascii) : bool :=
  isspace_numeric c || is_char c "_" || is_digit c || is_char c "+" || is_char c "-" ||
  is_char c "." || is_char c "e" || is_char c "E" || word_letter (to_lower c).

Definition is_comma (c : ascii) : bool := is_char c ",".

Definition not_linebreak (c : ascii) : bool := negb (is_linebreak c).

(** [k] copies of each line, line by line: [count] says how many. *)
Fixpoint copies (lines : list string) (count : list nat) : list string :=
  match lines, count with
  | raw :: rest, k :: count' => (repeat (strip raw) k ++ copies rest count')%list
  | _, _ => []
  end.

(** The line that [write_output] writes for [line], without the newline. *)
Definition resolved (base_url line : string) : string :=
  if endswith line ".ts" then base_url ++ "/" ++ line else line.

(** A text without a line boundary. *)
Definition one_line (s : string) : bool := all_chars not_linebreak s.

(** The command that [convert_to_mp4] runs. *)
Definition ffmpeg_command (m3u8_file output_mp4 : string) : list string :=
  ["ffmpeg"; "-y";
   "-protocol_whitelist"; "file,http,https,tcp,tls,crypto";
   "-i"; m3u8_file;
   "-c"; "copy";
   "-bsf:a"; "aac_adtstoasc";
   output_mp4].

(** The words [main] prints before an exception it has caught. *)
Definition report_prefix (e : exn) : string :=
  match e with
  | ValueError _ => "Error: "
  | _ => "An unexpected error occurred: "
  end.

Definition is_run (a : action) : bool :=
  match a with
  | Run _ => true
  | _ => false
  end.

(** * Properties *)

(** ** The built-ins *)

Lemma bind_ok {A B : Type} (r : res A) (k : A -> res B) (b : B) :
  bind r k = Ok b -> exists a, r = Ok a /\ k a = Ok b.
Proof.
  destruct r as [a|e]; simpl; intros H; [exists a; auto | discriminate].
Qed.

(** ** The loop of [filter_segments] *)

Lemma loop_tail_fields (line : string) (st : loop_state) :
  total_time (loop_tail line st) = total_time st /\
  inside_range (loop_tail line st) = inside_range st /\
  add_start (loop_tail line st) = add_start st /\
  result (loop_tail line st) =
    (result st ++ (if add_start st then [line] else []) ++
     (if inside_range st && endswith line ".ts" then [line] else []))%list.
Proof.
  unfold loop_tail.
  destruct st as [t i r a]; simpl.
  destruct a, i; simpl; destruct (endswith line ".ts"); simpl;
    repeat split; rewrite <- ?app_assoc, ?app_nil_r; reflexivity.
Qed.

(** A line that is no duration line only passes through the closing [if]s. *)
Lemma loop_body_other (s e : Z) (st : loop_state) (raw : string) :
  is_duration_line raw = false ->
  loop_body s e st raw = Ok (Next (loop_tail (strip raw) st)).
Proof.
  unfold is_duration_line, loop_body. intros ->. reflexivity.
Qed.

(** A duration line whose payload cannot be read raises. *)
Lemma loop_body_raise (s e : Z) (st : loop_state) (raw : string) (x : exn) :
  is_duration_line raw = true ->
  extinf_duration (strip raw) = Raise x ->
  loop_body s e st raw = Raise x.
Proof.
  unfold is_duration_line, loop_body. intros -> ->. reflexivity.
Qed.

(** A duration line that can be read either ends the scan or is counted. *)
Lemma loop_body_duration (s e : Z) (st : loop_state) (raw : string) (d : spec_float) :
  is_duration_line raw = true ->
  extinf_duration (strip raw) = Ok d ->
  loop_body s e st raw =
    if num_ge (total_time st) e then Ok (Break (at_break s st))
    else Ok (Next (after_duration s st (strip raw) d)).
Proof.
  unfold is_duration_line, loop_body. intros -> ->. simpl.
  unfold at_break, after_duration, loop_tail.
  destruct st as [t i r a]; simpl.
  destruct (num_ge t s) eqn:Hs; simpl; rewrite ?orb_true_r, ?orb_false_r;
    destruct (num_ge t e) eqn:He; simpl; try reflexivity;
    destruct i; simpl; try reflexivity;
    destruct (endswith (strip raw) ".ts"); simpl;
    unfold append; simpl; rewrite <- ?app_assoc, ?app_nil_r; reflexivity.
Qed.

(** The four ways an iteration can go. *)
Lemma loop_body_cases (s e : Z) (st : loop_state) (raw : string) :
  (is_duration_line raw = false /\
   loop_body s e st raw = Ok (Next (loop_tail (strip raw) st))) \/
  (is_duration_line raw = true /\
   exists x, extinf_duration (strip raw) = Raise x /\ loop_body s e st raw = Raise x) \/
  (is_duration_line raw = true /\
   exists d, extinf_duration (strip raw) = Ok d /\
     num_ge (total_time st) e = true /\
     loop_body s e st raw = Ok (Break (at_break s st))) \/
  (is_duration_line raw = true /\
   exists d, extinf_duration (strip raw) = Ok d /\
     num_ge (total_time st) e = false /\
     loop_body s e st raw = Ok (Next (after_duration s st (strip raw) d))).
Proof.
  destruct (is_duration_line raw) eqn:Hd.
  - right. destruct (extinf_duration (strip raw)) as [d|x] eqn:Hx.
    + right. pose proof (loop_body_duration s e st raw d Hd Hx) as Hb.
      destruct (num_ge (total_time st) e) eqn:He.
      * left. split; [reflexivity|]. exists d. auto.
      * right. split; [reflexivity|]. exists d. auto.
    + left. split; [reflexivity|]. exists x. split; [reflexivity|].
      now apply loop_body_raise.
  - left. split; [reflexivity|]. now apply loop_body_other.
Qed.

Ltac body_cases s e st raw :=
  let Hd := fresh "Hd" in
  let Hb := fresh "Hb" in
  let Hx := fresh "Hx" in
  let He := fresh "He" in
  let d := fresh "d" in
  destruct (loop_body_cases s e st raw)
    as [[Hd Hb] | [[Hd [d [Hx Hb]]] | [[Hd [d [Hx [He Hb]]]] | [Hd [d [Hx [He Hb]]]]]]].

(** [result] only grows: an iteration appends to it. *)
Lemma loop_body_result (s e : Z) (st : loop_state) (raw : string) (f : flow) :
  loop_body s e st raw = Ok f ->
  exists ext, result (flow_state f) = (result st ++ ext)%list.
Proof.
  intros H. body_cases s e st raw; rewrite Hb in H; inversion H; subst; simpl.
  - destruct (loop_tail_fields (strip raw) st) as (_ & _ & _ & ->). eauto.
  - exists []. now rewrite app_nil_r.
  - eauto.
Qed.

(** [inside_range], once set, stays set through an iteration. *)
Lemma loop_body_inside (s e : Z) (st : loop_state) (raw : string) (f : flow) :
  loop_body s e st raw = Ok f ->
  inside_range st = true ->
  inside_range (flow_state f) = true.
Proof.
  intros H Hi. body_cases s e st raw; rewrite Hb in H; inversion H; subst; simpl.
  - destruct (loop_tail_fields (strip raw) st) as (_ & -> & _). exact Hi.
  - now rewrite Hi.
  - now rewrite Hi.
Qed.

Lemma for_loop_app (s e : Z) (l1 l2 : list string) (st : loop_state) :
  for_loop s e (l1 ++ l2)%list st =
    match for_loop s e l1 st with
    | Ok (Next st') => for_loop s e l2 st'
    | other => other
    end.
Proof.
  revert st. induction l1 as [|raw l1 IH]; intros st; simpl; [reflexivity|].
  destruct (loop_body s e st raw) as [[st'|st']|x]; simpl; auto.
Qed.

Lemma for_loop_result (s e : Z) (lines : list string) (st : loop_state) (f : flow) :
  for_loop s e lines st = Ok f ->
  exists ext, result (flow_state f) = (result st ++ ext)%list.
Proof.
  revert st. induction lines as [|raw rest IH]; intros st; simpl.
  - intros H. inversion H. exists []. simpl. now rewrite app_nil_r.
  - destruct (loop_body s e st raw) as [g|x] eqn:Hb; simpl; [|discriminate].
    destruct (loop_body_result _ _ _ _ _ Hb) as [ext1 E1].
    destruct g as [st'|st']; simpl in *.
    + intros H. destruct (IH _ H) as [ext2 E2].
      exists (ext1 ++ ext2)%list. now rewrite E2, E1, app_assoc.
    + intros H. inversion H. subst. simpl. eauto.
Qed.

Lemma for_loop_inside (s e : Z) (lines : list string) (st : loop_state) (f : flow) :
  for_loop s e lines st = Ok f ->
  inside_range st = true ->
  inside_range (flow_state f) = true.
Proof.
  revert st. induction lines as [|raw rest IH]; intros st; simpl.
  - intros H Hi. inversion H. exact Hi.
  - destruct (loop_body s e st raw) as [g|x] eqn:Hb; simpl; [|discriminate].
    intros H Hi. pose proof (loop_body_inside _ _ _ _ _ Hb Hi) as Hi'.
    destruct g as [st'|st']; simpl in *.
    + eauto.
    + inversion H. subst. exact Hi'.
Qed.

(** As long as the scan goes on, [total_time] is the sum of the durations
    met so far. *)
Lemma for_loop_total_time (s e : Z) (lines : list string) (st0 st : loop_state) :
  for_loop s e lines st0 = Ok (Next st) ->
  total_time st = fold_left num_add (durations lines) (total_time st0).
Proof.
  revert st0. induction lines as [|raw rest IH]; intros st0; simpl.
  - intros H. inversion H. reflexivity.
  - body_cases s e st0 raw; rewrite Hb; simpl; try discriminate; rewrite Hd.
    + intros H. rewrite (IH _ H).
      destruct (loop_tail_fields (strip raw) st0) as (-> & _). reflexivity.
    + rewrite Hx. intros H. rewrite (IH _ H). reflexivity.
Qed.

Lemma scan_total_time (s e : Z) (pre : list string) (st : loop_state) :
  scan s e pre = Ok (Next st) ->
  total_time st = cumulative_start pre.
Proof.
  intros H. apply for_loop_total_time in H. exact H.
Qed.

(** A scan that reaches the end of [l1 ++ l2] reached the end of [l1]. *)
Lemma scan_app_next (s e : Z) (l1 l2 : list string) (st : loop_state) :
  scan s e (l1 ++ l2)%list = Ok (Next st) ->
  exists st1, scan s e l1 = Ok (Next st1) /\ for_loop s e l2 st1 = Ok (Next st).
Proof.
  unfold scan. rewrite for_loop_app.
  destruct (for_loop s e l1 init_state) as [[st1|st1]|x]; try discriminate.
  intros H. exists st1. auto.
Qed.

(** Before the first duration line every line is appended, and nothing else
    changes. *)
Lemma for_loop_header (s e : Z) (header rest : list string) (st : loop_state) :
  add_start st = true ->
  inside_range st = false ->
  (forall raw, In raw header -> is_duration_line raw = false) ->
  for_loop s e (header ++ rest)%list st =
    for_loop s e rest
      {| total_time := total_time st; inside_range := false;
         result := (result st ++ map strip header)%list; add_start := true |}.
Proof.
  revert st. induction header as [|raw header IH]; intros st Ha Hi Hh; simpl.
  - rewrite app_nil_r. destruct st as [t i r a]; simpl in *; subst. reflexivity.
  - rewrite loop_body_other by (apply Hh; now left). simpl.
    rewrite IH.
    + f_equal. destruct st as [t i r a]; simpl in *; subst.
      unfold loop_tail, append; simpl. now rewrite <- app_assoc.
    + destruct (loop_tail_fields (strip raw) st) as (_ & _ & -> & _). exact Ha.
    + destruct (loop_tail_fields (strip raw) st) as (_ & -> & _). exact Hi.
    + intros raw' Hin. apply Hh. now right.
Qed.

(** How keeping shows on a duration line that the scan goes past. *)
Lemma after_duration_grows (s : Z) (st : loop_state) (line : string) (d : spec_float) :
  Nat.eqb (List.length (result (after_duration s st line d))) (List.length (result st)) =
  negb (inside_range (after_duration s st line d)).
Proof.
  unfold after_duration; simpl.
  destruct (inside_range st || num_ge (total_time st) s); simpl.
  - rewrite length_app. simpl. apply Nat.eqb_neq. lia.
  - rewrite app_nil_r. apply Nat.eqb_refl.
Qed.

Lemma kept_at_duration (s e : Z) (pre : list string) (raw : string) (st st' : loop_state) :
  is_duration_line raw = true ->
  scan s e pre = Ok (Next st) ->
  loop_body s e st raw = Ok (Next st') ->
  kept_at s e pre raw = inside_range st'.
Proof.
  intros Hd Hs Hb. unfold kept_at. rewrite Hs, Hb. simpl.
  body_cases s e st raw; try congruence.
  rewrite Hb0 in Hb. inversion Hb. subst st'.
  rewrite after_duration_grows. apply negb_involutive.
Qed.

(** A kept line was reached by the scan and handled without [break]. *)
Lemma kept_at_next (s e : Z) (pre : list string) (raw : string) :
  kept_at s e pre raw = true ->
  exists st st', scan s e pre = Ok (Next st) /\ loop_body s e st raw = Ok (Next st').
Proof.
  unfold kept_at. intros H.
  destruct (scan s e pre) as [[st|st]|x]; try discriminate.
  destruct (loop_body s e st raw) as [[st'|st']|x] eqn:Hb; try discriminate.
  - eauto.
  - exfalso. simpl in H.
    body_cases s e st raw; rewrite Hb0 in Hb; inversion Hb; subst.
    simpl in H. now rewrite Nat.eqb_refl in H.
Qed.

(** What [kept_at] says about the output: the kept line stands in it, right
    after what the lines before it gave. *)
Lemma kept_at_output (s e : Z) (pre post : list string) (raw : string) (out : list string) :
  kept_at s e pre raw = true ->
  filter_segments (pre ++ raw :: post)%list s e = Ok out ->
  exists r1 r2, filter_segments pre s e = Ok r1 /\ out = (r1 ++ strip raw :: r2)%list.
Proof.
  intros Hk Hf.
  destruct (kept_at_next _ _ _ _ Hk) as (st & st' & Hs & Hb).
  unfold filter_segments in *. unfold scan in Hs.
  rewrite for_loop_app, Hs in Hf. simpl in Hf. rewrite Hb in Hf. simpl in Hf.
  rewrite Hs. simpl. exists (result st).
  apply bind_ok in Hf. destruct Hf as (f & Hf & Hout). inversion Hout; subst out.
  destruct (for_loop_result _ _ _ _ _ Hf) as [ext ->].
  unfold kept_at, scan in Hk. rewrite Hs, Hb in Hk. simpl in Hk.
  body_cases s e st raw; rewrite Hb0 in Hb; inversion Hb; subst st'.
  - destruct (loop_tail_fields (strip raw) st) as (_ & _ & _ & E).
    rewrite E in *.
    destruct (add_start st); simpl in *.
    + eexists. split; [reflexivity|]. rewrite <- app_assoc. reflexivity.
    + destruct (inside_range st && endswith (strip raw) ".ts"); simpl in *.
      * eexists. split; [reflexivity|]. rewrite <- app_assoc. reflexivity.
      * rewrite app_nil_r, Nat.eqb_refl in Hk. discriminate.
  - rewrite after_duration_grows in Hk. rewrite negb_involutive in Hk.
    unfold after_duration in *. simpl in *. rewrite Hk. simpl.
    eexists. split; [reflexivity|]. rewrite <- app_assoc. reflexivity.
Qed.

(** [filter_segments] raises only at a duration line whose payload cannot
    be read: when every duration line can be read, it returns. *)
Lemma for_loop_returns (s e : Z) (lines : list string) (st : loop_state) :
  (forall raw, In raw lines -> is_duration_line raw = true ->
               exists d, extinf_duration (strip raw) = Ok d) ->
  exists f, for_loop s e lines st = Ok f.
Proof.
  revert st. induction lines as [|raw rest IH]; intros st Hread; simpl; [eauto|].
  body_cases s e st raw; rewrite Hb; simpl; eauto.
  - apply IH. intros raw' Hin. apply Hread. now right.
  - destruct (Hread raw (or_introl eq_refl) Hd) as [d' Hd']. congruence.
  - apply IH. intros raw' Hin. apply Hread. now right.
Qed.

Lemma filter_segments_returns (lines : list string) (s e : Z) :
  (forall raw, In raw lines -> is_duration_line raw = true ->
               exists d, extinf_duration (strip raw) = Ok d) ->
  exists out, filter_segments lines s e = Ok out.
Proof.
  intros Hread. unfold filter_segments.
  destruct (for_loop_returns s e lines init_state Hread) as [f ->]. simpl. eauto.
Qed.

(** ** Header lines *)

(** C6. Every line before the first duration-annotation line is in the
    output of [filter_segments], stripped, whatever the window: the output
    starts with these lines, in their order. *)
Theorem header_lines_kept (lines header rest : list string) (s e : Z) (out : list string) :
  filter_segments lines s e = Ok out ->
  lines = (header ++ rest)%list ->
  (forall raw, In raw header -> is_duration_line raw = false) ->
  exists tail, out = (map strip header ++ tail)%list.
Proof.
  intros Hf -> Hh. unfold filter_segments in Hf.
  rewrite for_loop_header in Hf by (auto; reflexivity).
  apply bind_ok in Hf. destruct Hf as (f & Hf & Hout). inversion Hout; subst out.
  destruct (for_loop_result _ _ _ _ _ Hf) as [ext ->]. simpl. eauto.
Qed.

Lemma header_lines_kept_witness :
  exists tail,
    ["#EXTM3U"; "#EXT-X-VERSION:3"; "#EXTINF:10.0,"; "seg2.ts"] =
    (map strip [" #EXTM3U"; "#EXT-X-VERSION:3 "] ++ tail)%list.
Proof.
  apply (header_lines_kept
           [" #EXTM3U"; "#EXT-X-VERSION:3 "; "#EXTINF:10.0,"; "seg0.ts";
            "#EXTINF:10.0,"; "seg1.ts"; "#EXTINF:10.0,"; "seg2.ts";
            "#EXTINF:10.0,"; "seg3.ts"]
           [" #EXTM3U"; "#EXT-X-VERSION:3 "]
           ["#EXTINF:10.0,"; "seg0.ts"; "#EXTINF:10.0,"; "seg1.ts";
            "#EXTINF:10.0,"; "seg2.ts"; "#EXTINF:10.0,"; "seg3.ts"]
           15 25).
  - vm_compute. reflexivity.
  - reflexivity.
  - intros raw [<- | [<- | []]]; reflexivity.
Defined.

(** ** Which segments are kept *)

(** [inside_range] is set by a kept duration line, and only so. *)
Lemma inside_has_kept (s e : Z) (pre : list string) (st : loop_state) :
  scan s e pre = Ok (Next st) ->
  inside_range st = true ->
  exists p1 x p2,
    pre = (p1 ++ x :: p2)%list /\ is_duration_line x = true /\ kept_at s e p1 x = true.
Proof.
  revert st. induction pre as [|y pre' IH] using rev_ind; intros st Hs Hi.
  - unfold scan in Hs. simpl in Hs. inversion Hs. subst. discriminate.
  - destruct (scan_app_next _ _ _ _ _ Hs) as (st1 & Hs1 & Hy).
    simpl in Hy.
    destruct (loop_body s e st1 y) as [[st2|st2]|z] eqn:Hb; simpl in Hy; try discriminate.
    inversion Hy; subst st2.
    destruct (inside_range st1) eqn:Hi1.
    + destruct (IH _ Hs1 Hi1) as (p1 & x & p2 & -> & Hx & Hk).
      exists p1, x, (p2 ++ [y])%list. rewrite <- app_assoc. simpl. auto.
    + destruct (is_duration_line y) eqn:Hd.
      * exists pre', y, []. repeat split; auto.
        rewrite (kept_at_duration _ _ _ _ _ _ Hd Hs1 Hb). exact Hi.
      * rewrite loop_body_other in Hb by exact Hd. inversion Hb; subst st.
        destruct (loop_tail_fields (strip y) st1) as (_ & E & _). congruence.
Qed.

(** Outside the range nothing but the header is kept. *)
Lemma for_loop_outside (s e : Z) (lines : list string) (st0 st : loop_state) :
  for_loop s e lines st0 = Ok (Next st) ->
  inside_range st = false ->
  result st =
    (result st0 ++ if add_start st0 then map strip (header_lines lines) else [])%list.
Proof.
  revert st0. induction lines as [|raw rest IH]; intros st0 Hf Hi; simpl in Hf.
  - inversion Hf; subst. simpl. destruct (add_start _); now rewrite app_nil_r.
  - body_cases s e st0 raw; rewrite Hb in Hf; simpl in Hf; try discriminate.
    + assert (Hi1 : inside_range (loop_tail (strip raw) st0) = false).
      { destruct (inside_range (loop_tail (strip raw) st0)) eqn:E1; [|reflexivity].
        pose proof (for_loop_inside _ _ _ _ _ Hf E1) as H1. simpl in H1. congruence. }
      destruct (loop_tail_fields (strip raw) st0) as (_ & Ei & Ea & Er).
      assert (Hi0 : inside_range st0 = false) by congruence.
      rewrite (IH _ Hf Hi), Er, Ea, Hi0. simpl. rewrite Hd.
      destruct (add_start st0); simpl; now rewrite <- app_assoc.
    + assert (Hi1 : inside_range (after_duration s st0 (strip raw) d) = false).
      { destruct (inside_range (after_duration s st0 (strip raw) d)) eqn:E1; [|reflexivity].
        pose proof (for_loop_inside _ _ _ _ _ Hf E1) as H1. simpl in H1. congruence. }
      rewrite (IH _ Hf Hi). simpl header_lines. rewrite Hd.
      unfold after_duration in *. simpl in *. rewrite Hi1. simpl.
      destruct (add_start st0); now rewrite !app_nil_r.
Qed.

(** While every segment starts before [start_seconds], the scan stays
    outside the range. *)
Lemma for_loop_stays_outside (s e : Z) (lines : list string) (st0 st : loop_state) :
  for_loop s e lines st0 = Ok (Next st) ->
  inside_range st0 = false ->
  (forall p1 x p2, lines = (p1 ++ x :: p2)%list -> is_duration_line x = true ->
                   num_ge (fold_left num_add (durations p1) (total_time st0)) s = false) ->
  inside_range st = false.
Proof.
  revert st0. induction lines as [|raw rest IH]; intros st0 Hf Hi Hlt; simpl in Hf.
  - inversion Hf; subst. exact Hi.
  - body_cases s e st0 raw; rewrite Hb in Hf; simpl in Hf; try discriminate.
    + destruct (loop_tail_fields (strip raw) st0) as (Et & Ei & _ & _).
      apply (IH _ Hf); [congruence|].
      intros p1 x p2 E Hdx. rewrite Et.
      specialize (Hlt (raw :: p1) x p2). simpl in Hlt. rewrite Hd in Hlt.
      apply Hlt; [now rewrite E | exact Hdx].
    + apply (IH _ Hf).
      * unfold after_duration; simpl. rewrite Hi. simpl.
        apply (Hlt [] raw rest eq_refl Hd).
      * intros p1 x p2 E Hdx. unfold after_duration; simpl.
        specialize (Hlt (raw :: p1) x p2). simpl in Hlt. rewrite Hd, Hx in Hlt.
        apply Hlt; [now rewrite E | exact Hdx].
Qed.

(** While every segment starts before [end_seconds], the scan goes on. *)
Lemma for_loop_goes_on (s e : Z) (lines : list string) (st0 : loop_state) (f : flow) :
  for_loop s e lines st0 = Ok f ->
  (forall p1 x p2, lines = (p1 ++ x :: p2)%list -> is_duration_line x = true ->
                   num_ge (fold_left num_add (durations p1) (total_time st0)) e = false) ->
  exists st, f = Next st.
Proof.
  revert st0. induction lines as [|raw rest IH]; intros st0 Hf Hlt; simpl in Hf.
  - inversion Hf. eauto.
  - body_cases s e st0 raw; rewrite Hb in Hf; simpl in Hf; try discriminate.
    + destruct (loop_tail_fields (strip raw) st0) as (Et & _).
      apply (IH _ Hf). intros p1 x p2 E Hdx. rewrite Et.
      specialize (Hlt (raw :: p1) x p2). simpl in Hlt. rewrite Hd in Hlt.
      apply Hlt; [now rewrite E | exact Hdx].
    + specialize (Hlt [] raw rest eq_refl Hd). simpl in Hlt. congruence.
    + apply (IH _ Hf). intros p1 x p2 E Hdx. unfold after_duration; simpl.
      specialize (Hlt (raw :: p1) x p2). simpl in Hlt. rewrite Hd, Hx in Hlt.
      apply Hlt; [now rewrite E | exact Hdx].
Qed.

(** The output when a duration line is the first one kept: the header,
    then this line, then what the rest of the scan adds. *)
Lemma first_kept_output (s e : Z) (pre post : list string) (raw : string)
  (st st' : loop_state) (out : list string) :
  is_duration_line raw = true ->
  scan s e pre = Ok (Next st) ->
  inside_range st = false ->
  loop_body s e st raw = Ok (Next st') ->
  inside_range st' = true ->
  filter_segments (pre ++ raw :: post)%list s e = Ok out ->
  exists rest, out = (map strip (header_lines pre) ++ strip raw :: rest)%list.
Proof.
  intros Hd Hs Hi Hb Hi' Hf.
  pose proof (for_loop_outside _ _ _ _ _ Hs Hi) as Hr. simpl in Hr.
  unfold filter_segments in Hf. unfold scan in Hs.
  rewrite for_loop_app, Hs in Hf. simpl in Hf. rewrite Hb in Hf. simpl in Hf.
  apply bind_ok in Hf. destruct Hf as (f & Hf & Hout). inversion Hout; subst out.
  destruct (for_loop_result _ _ _ _ _ Hf) as [ext ->].
  body_cases s e st raw; try congruence.
  rewrite Hb0 in Hb. inversion Hb; subst st'.
  unfold after_duration in *. simpl in *. rewrite Hi' , Hr. simpl.
  eexists. rewrite <- !app_assoc. simpl. reflexivity.
Qed.

(** C2. The start check reads [total_time] before the duration of the
    current segment is added: the first segment that [filter_segments]
    keeps is the first one whose cumulative start time, the sum of the
    durations of all earlier segments, is at least [start_seconds].  In
    the output of [filter_segments] the duration line of that segment
    stands right after the header lines, nothing of an earlier segment
    before it.  The first kept segment starts at or after [start_seconds]
    and every segment before it starts before; and the first segment that
    starts at or after [start_seconds] is the first one kept, whatever
    its own duration, when no segment up to it starts at or after
    [end_seconds]. *)
Theorem first_kept_segment (s e : Z) (pre post : list string) (raw : string)
  (out : list string) :
  is_duration_line raw = true ->
  filter_segments (pre ++ raw :: post)%list s e = Ok out ->
  (kept_at s e pre raw = true ->
   (forall p1 x p2, pre = (p1 ++ x :: p2)%list -> is_duration_line x = true ->
                    kept_at s e p1 x = false) ->
   num_ge (cumulative_start pre) s = true /\
   (forall p1 x p2, pre = (p1 ++ x :: p2)%list -> is_duration_line x = true ->
                    num_ge (cumulative_start p1) s = false) /\
   exists rest, out = (map strip (header_lines pre) ++ strip raw :: rest)%list) /\
  (num_ge (cumulative_start pre) s = true ->
   (forall p1 x p2, pre = (p1 ++ x :: p2)%list -> is_duration_line x = true ->
                    num_ge (cumulative_start p1) s = false /\
                    num_ge (cumulative_start p1) e = false) ->
   num_ge (cumulative_start pre) e = false ->
   kept_at s e pre raw = true /\
   (forall p1 x p2, pre = (p1 ++ x :: p2)%list -> is_duration_line x = true ->
                    kept_at s e p1 x = false) /\
   exists rest, out = (map strip (header_lines pre) ++ strip raw :: rest)%list).
Proof.
  intros Hd Hout. split.
  - intros Hk Hfirst.
    destruct (kept_at_next _ _ _ _ Hk) as (st & st' & Hs & Hb).
    assert (Hi : inside_range st = false).
    { destruct (inside_range st) eqn:Hi; [|reflexivity].
      destruct (inside_has_kept _ _ _ _ Hs Hi) as (p1 & x & p2 & E & Hx & Hkx).
      rewrite (Hfirst _ _ _ E Hx) in Hkx. discriminate. }
    rewrite (kept_at_duration _ _ _ _ _ _ Hd Hs Hb) in Hk.
    split; [|split].
    + body_cases s e st raw; try congruence.
      rewrite Hb0 in Hb. inversion Hb; subst st'.
      unfold after_duration in Hk; simpl in Hk. rewrite Hi in Hk. simpl in Hk.
      now rewrite <- (scan_total_time _ _ _ _ Hs).
    + intros p1 x p2 E Hdx. subst pre.
      destruct (scan_app_next _ _ _ _ _ Hs) as (st1 & Hs1 & Hrest).
      simpl in Hrest.
      destruct (loop_body s e st1 x) as [[st2|st2]|z] eqn:Hbx; simpl in Hrest;
        try discriminate.
      pose proof (Hfirst p1 x p2 eq_refl Hdx) as Hnk.
      rewrite (kept_at_duration _ _ _ _ _ _ Hdx Hs1 Hbx) in Hnk.
      body_cases s e st1 x; try congruence.
      rewrite Hb0 in Hbx. inversion Hbx; subst st2.
      unfold after_duration in Hnk; simpl in Hnk.
      apply orb_false_iff in Hnk. destruct Hnk as [_ Hnk].
      now rewrite <- (scan_total_time _ _ _ _ Hs1).
    + exact (first_kept_output _ _ _ _ _ _ _ _ Hd Hs Hi Hb Hk Hout).
  - intros Hge Hearlier He.
    assert (Hs : exists st, scan s e pre = Ok (Next st)).
    { unfold filter_segments in Hout. rewrite for_loop_app in Hout. unfold scan.
      destruct (for_loop s e pre init_state) as [g|z] eqn:Hg; [|discriminate].
      destruct (for_loop_goes_on _ _ _ _ _ Hg) as [st ->]; [|eauto].
      intros p1 x p2 E Hdx. apply (Hearlier p1 x p2 E Hdx). }
    destruct Hs as [st Hs].
    assert (Hi : inside_range st = false).
    { apply (for_loop_stays_outside _ _ _ _ _ Hs eq_refl).
      intros p1 x p2 E Hdx. apply (Hearlier p1 x p2 E Hdx). }
    assert (Hb : exists st', loop_body s e st raw = Ok (Next st') /\
                             inside_range st' = true).
    { body_cases s e st raw; try congruence.
      - exfalso. unfold filter_segments in Hout. unfold scan in Hs.
        rewrite for_loop_app, Hs in Hout. simpl in Hout. rewrite Hb in Hout.
        discriminate.
      - rewrite (scan_total_time _ _ _ _ Hs) in He0. congruence.
      - eexists. split; [exact Hb|]. unfold after_duration; simpl.
        rewrite (scan_total_time _ _ _ _ Hs), Hge. apply orb_true_r. }
    destruct Hb as (st' & Hb & Hi').
    split; [|split].
    + now rewrite (kept_at_duration _ _ _ _ _ _ Hd Hs Hb).
    + intros p1 x p2 E Hdx. subst pre.
      destruct (scan_app_next _ _ _ _ _ Hs) as (st1 & Hs1 & Hrest).
      simpl in Hrest.
      destruct (loop_body s e st1 x) as [[st2|st2]|z] eqn:Hbx; simpl in Hrest;
        try discriminate.
      rewrite (kept_at_duration _ _ _ _ _ _ Hdx Hs1 Hbx).
      assert (Hi1 : inside_range st1 = false).
      { apply (for_loop_stays_outside _ _ _ _ _ Hs1 eq_refl).
        intros q1 y q2 E Hdy.
        apply (Hearlier q1 y (q2 ++ x :: p2)%list); [|exact Hdy].
        rewrite E, <- app_assoc. reflexivity. }
      body_cases s e st1 x; try congruence.
      rewrite Hb0 in Hbx. inversion Hbx; subst st2.
      unfold after_duration; simpl. rewrite Hi1. simpl.
      rewrite (scan_total_time _ _ _ _ Hs1).
      apply (Hearlier p1 x p2 eq_refl Hdx).
    + exact (first_kept_output _ _ _ _ _ _ _ _ Hd Hs Hi Hb Hi' Hout).
Qed.

Lemma first_kept_segment_witness :
  (kept_at 15 25 ["#EXTM3U"; "#EXTINF:10.0,"; "seg0.ts"; "#EXTINF:10.0,"; "seg1.ts"]
     "#EXTINF:10.0," = true /\
   exists rest,
     ["#EXTM3U"; "#EXTINF:10.0,"; "seg2.ts"] =
     (map strip (header_lines ["#EXTM3U"; "#EXTINF:10.0,"; "seg0.ts";
                               "#EXTINF:10.0,"; "seg1.ts"])
      ++ strip "#EXTINF:10.0," :: rest)%list) /\
  num_ge (cumulative_start ["#EXTM3U"; "#EXTINF:10.0,"; "seg0.ts"; "#EXTINF:10.0,"; "seg1.ts"])
    15 = true.
Proof.
  pose proof (first_kept_segment 15 25
                ["#EXTM3U"; "#EXTINF:10.0,"; "seg0.ts"; "#EXTINF:10.0,"; "seg1.ts"]
                ["seg2.ts"; "#EXTINF:10.0,"; "seg3.ts"]
                "#EXTINF:10.0," ["#EXTM3U"; "#EXTINF:10.0,"; "seg2.ts"]
                eq_refl eq_refl) as [Hkept Hreach].
  assert (Hfirst :
    kept_at 15 25 ["#EXTM3U"; "#EXTINF:10.0,"; "seg0.ts"; "#EXTINF:10.0,"; "seg1.ts"]
      "#EXTINF:10.0," = true /\
    (forall p1 x p2,
        ["#EXTM3U"; "#EXTINF:10.0,"; "seg0.ts"; "#EXTINF:10.0,"; "seg1.ts"]
        = (p1 ++ x :: p2)%list ->
        is_duration_line x = true ->
        kept_at 15 25 p1 x = false) /\
    exists rest,
      ["#EXTM3U"; "#EXTINF:10.0,"; "seg2.ts"] =
      (map strip (header_lines ["#EXTM3U"; "#EXTINF:10.0,"; "seg0.ts";
                                "#EXTINF:10.0,"; "seg1.ts"])
       ++ strip "#EXTINF:10.0," :: rest)%list).
  { apply Hreach.
    - vm_compute. reflexivity.
    - intros p1 x p2 E Hx.
      destruct p1 as [|? p1]; simpl in E; injection E as Ex E;
        [subst x; discriminate Hx|].
      destruct p1 as [|? p1]; simpl in E; injection E as Ex1 E;
        [subst; vm_compute; split; reflexivity|].
      destruct p1 as [|? p1]; simpl in E; injection E as Ex2 E;
        [subst x; discriminate Hx|].
      destruct p1 as [|? p1]; simpl in E; injection E as Ex3 E;
        [subst; vm_compute; split; reflexivity|].
      destruct p1 as [|? p1]; simpl in E; injection E as Ex4 E;
        [subst x; discriminate Hx|].
      destruct p1; discriminate E.
    - vm_compute. reflexivity. }
  destruct Hfirst as (Hk & Hearly & Hshape).
  destruct (Hkept Hk Hearly) as (Hge & _ & _).
  split; [split; [exact Hk | exact Hshape] | exact Hge].
Defined.

(** C9. The kept segments form one run.  [inside_range], once true, stays
    true to the end of the scan; so a segment that stands between two kept
    segments is kept as well. *)
Theorem kept_segments_contiguous (s e : Z) :
  (forall lines st f,
      for_loop s e lines st = Ok f ->
      inside_range st = true ->
      inside_range (flow_state f) = true) /\
  (forall l1 a l2 b l3 c,
      is_duration_line a = true ->
      is_duration_line b = true ->
      is_duration_line c = true ->
      kept_at s e l1 a = true ->
      kept_at s e (l1 ++ a :: l2 ++ b :: l3)%list c = true ->
      kept_at s e (l1 ++ a :: l2)%list b = true).
Proof.
  split.
  - intros lines st f. apply for_loop_inside.
  - intros l1 a l2 b l3 c Ha Hb _ Hka Hkc.
    destruct (kept_at_next _ _ _ _ Hkc) as (st3 & _ & Hs3 & _).
    replace (l1 ++ a :: l2 ++ b :: l3)%list
      with ((l1 ++ a :: l2) ++ b :: l3)%list in Hs3
      by (rewrite <- app_assoc; reflexivity).
    destruct (scan_app_next _ _ _ _ _ Hs3) as (st2 & Hs2 & Hrest).
    simpl in Hrest.
    destruct (loop_body s e st2 b) as [[stb|stb]|z] eqn:Hbb; simpl in Hrest; try discriminate.
    rewrite (kept_at_duration _ _ _ _ _ _ Hb Hs2 Hbb).
    apply (loop_body_inside _ _ _ _ _ Hbb).
    destruct (scan_app_next _ _ _ _ _ Hs2) as (st1 & Hs1 & Hal2).
    simpl in Hal2.
    destruct (loop_body s e st1 a) as [[sta|sta]|z] eqn:Hba; simpl in Hal2; try discriminate.
    rewrite (kept_at_duration _ _ _ _ _ _ Ha Hs1 Hba) in Hka.
    apply (for_loop_inside _ _ _ _ _ Hal2 Hka).
Qed.

Lemma kept_segments_contiguous_witness :
  kept_at 5 35 ["#EXTM3U"; "#EXTINF:10.0,"; "seg0.ts"; "#EXTINF:10.0,"; "seg1.ts"]
    "#EXTINF:10.0," = true.
Proof.
  apply (proj2 (kept_segments_contiguous 5 35)
           ["#EXTM3U"; "#EXTINF:10.0,"; "seg0.ts"] "#EXTINF:10.0," ["seg1.ts"]
           "#EXTINF:10.0," ["seg2.ts"] "#EXTINF:1.5,");
    vm_compute; reflexivity.
Defined.

(** ** The end of the window *)

(** C3. At a duration-annotation line whose cumulative start time, the
    total before its own duration is added, is at least [end_seconds], the
    scan stops: the output is the output of the lines before it.  The
    duration line itself is not kept and no later line is, whatever follows. *)
Theorem scan_stops_at_end (s e : Z) (pre post : list string) (raw : string)
  (d : spec_float) (out : list string) :
  filter_segments pre s e = Ok out ->
  is_duration_line raw = true ->
  extinf_duration (strip raw) = Ok d ->
  num_ge (cumulative_start pre) e = true ->
  filter_segments (pre ++ raw :: post)%list s e = Ok out /\
  kept_at s e pre raw = false /\
  (forall p x, kept_at s e (pre ++ raw :: p)%list x = false).
Proof.
  intros Hf Hd Hx Hge.
  assert (Hstop : forall p, exists st,
             scan s e (pre ++ raw :: p)%list = Ok (Break st) /\ result st = out).
  { intros p. unfold filter_segments in Hf. unfold scan.
    rewrite for_loop_app.
    destruct (for_loop s e pre init_state) as [[st|st]|z] eqn:Hs; simpl in Hf;
      try discriminate; inversion Hf; subst out.
    - simpl. rewrite (loop_body_duration _ _ _ _ _ Hd Hx).
      rewrite (scan_total_time s e pre st Hs), Hge. simpl.
      exists (at_break s st). auto.
    - exists st. auto. }
  repeat split.
  - destruct (Hstop post) as (st & Hs & <-).
    unfold filter_segments. unfold scan in Hs. now rewrite Hs.
  - destruct (kept_at s e pre raw) eqn:Hk; [|reflexivity].
    destruct (kept_at_next _ _ _ _ Hk) as (st & st' & Hs & Hb).
    rewrite (loop_body_duration _ _ _ _ _ Hd Hx) in Hb.
    rewrite (scan_total_time s e pre st Hs), Hge in Hb. discriminate.
  - intros p x. unfold kept_at. destruct (Hstop p) as (st & -> & _). reflexivity.
Qed.

Lemma scan_stops_at_end_witness :
  filter_segments
    (["#EXTM3U"; "#EXTINF:10.0,"; "seg0.ts"; "#EXTINF:10.0,"; "seg1.ts";
      "#EXTINF:10.0,"; "seg2.ts"] ++ "#EXTINF:10.0," :: ["seg3.ts"; "#EXT-X-ENDLIST"])%list
    15 25 = Ok ["#EXTM3U"; "#EXTINF:10.0,"; "seg2.ts"].
Proof.
  apply (scan_stops_at_end 15 25
           ["#EXTM3U"; "#EXTINF:10.0,"; "seg0.ts"; "#EXTINF:10.0,"; "seg1.ts";
            "#EXTINF:10.0,"; "seg2.ts"]
           ["seg3.ts"; "#EXT-X-ENDLIST"] "#EXTINF:10.0,"
           (b64_of_Z 10)); vm_compute; reflexivity.
Defined.

(** C4. Four segments of 10 seconds and the window from 15 to 25: the
    output is the header, the duration line of the third segment and its
    reference.  Line by line, the three header lines and the two lines of
    the third segment are kept and no other; the segments start at 0, 10,
    20 and 30. *)
Theorem scenario_window_15_25 :
  filter_segments playlist4 15 25 =
    Ok ["#EXTM3U"; "#EXT-X-VERSION:3"; "#EXT-X-TARGETDURATION:10";
        "#EXTINF:10.0,"; "seg2.ts"] /\
  map (fun i => kept_at 15 25 (firstn i playlist4) (nth i playlist4 EmptyString))
      (seq 0 12) =
    [true; true; true; false; false; false; false; true; true; false; false; false] /\
  durations playlist4 = [b64_of_Z 10; b64_of_Z 10; b64_of_Z 10; b64_of_Z 10] /\
  map (fun i => cumulative_start (firstn i playlist4)) [3; 5; 7; 9]%nat =
    [PyInt 0; PyFloat (b64_of_Z 10); PyFloat (b64_of_Z 20); PyFloat (b64_of_Z 30)].
Proof.
  repeat split; vm_compute; reflexivity.
Qed.

(** ** [split] and [int] *)

Lemma all_chars_weaken (p q : ascii -> bool) (s : string) :
  (forall c, p c = true -> q c = true) ->
  all_chars p s = true -> all_chars q s = true.
Proof.
  intros Hpq. induction s as [|c s IH]; simpl; [reflexivity|].
  intros H. apply andb_true_iff in H. destruct H as [Hc Hs].
  now rewrite (Hpq _ Hc), IH.
Qed.

Lemma lstrip_by_all (p q : ascii -> bool) (s : string) :
  (forall c, p c = true -> q c = true) ->
  all_chars q (lstrip_by p s) = true -> all_chars q s = true.
Proof.
  intros Hpq. induction s as [|c s IH]; simpl; [reflexivity|].
  destruct (p c) eqn:Hc.
  - intros H. now rewrite (Hpq _ Hc), IH.
  - simpl. auto.
Qed.

Lemma lstrip_by_empty (p : ascii -> bool) (s : string) :
  lstrip_by p s = EmptyString -> all_chars p s = true.
Proof.
  induction s as [|c s IH]; simpl; [reflexivity|].
  destruct (p c); [auto | discriminate].
Qed.

Lemma parse_sign_all (q : ascii -> bool) (s r : string) (neg : bool) :
  q "+"%char = true -> q "-"%char = true ->
  parse_sign s = (neg, r) ->
  all_chars q r = true -> all_chars q s = true.
Proof.
  intros Hp Hm. destruct s as [|c s]; simpl.
  - intros H. inversion H. auto.
  - unfold is_char.
    destruct (Ascii.eqb c "+") eqn:E1; [apply Ascii.eqb_eq in E1; subst|].
    { intros H. inversion H; subst. simpl. intros ->. now rewrite Hp. }
    destruct (Ascii.eqb c "-") eqn:E2; [apply Ascii.eqb_eq in E2; subst|].
    { intros H. inversion H; subst. simpl. intros ->. now rewrite Hm. }
    intros H. inversion H; subst. auto.
Qed.

Lemma scan_digits_all (q : ascii -> bool) (s : string) (acc count : Z) (us : bool)
  (v n : Z) (rest : string) :
  (forall c, is_digit c = true -> q c = true) ->
  q "_"%char = true ->
  scan_digits s acc count us = Some (v, n, rest) ->
  all_chars q rest = true -> all_chars q s = true.
Proof.
  intros Hd Hu. revert acc count us.
  induction s as [|c s IH]; intros acc count us; simpl.
  - destruct us; [discriminate|]. intros H. inversion H. auto.
  - destruct (is_digit c) eqn:Hc.
    + intros H Hr. now rewrite (Hd _ Hc), (IH _ _ _ H Hr).
    + unfold is_char. destruct (Ascii.eqb c "_") eqn:E.
      * apply Ascii.eqb_eq in E. subst c.
        destruct us; [discriminate|].
        intros H Hr. now rewrite Hu, (IH _ _ _ H Hr).
      * destruct us; [discriminate|]. intros H. inversion H; subst. auto.
Qed.

(** A text that [int] accepts is made of blanks, signs, digits and
    underscores. *)
Lemma int_of_str_chars (max_str_digits : Z) (s : string) (a : Z) :
  int_of_str max_str_digits s = Ok a -> all_chars int_char s = true.
Proof.
  unfold int_of_str.
  destruct (parse_sign (lstrip_by isspace_numeric s)) as [neg s2] eqn:Hsign.
  intros H.
  apply (lstrip_by_all isspace_numeric).
  { intros c Hc. unfold int_char. now rewrite Hc. }
  apply (parse_sign_all int_char _ s2 neg); try reflexivity; [exact Hsign|].
  destruct s2 as [|c s2']; [discriminate|].
  destruct (is_char c "_"); [discriminate|].
  destruct (scan_digits (String c s2') 0 0 false) as [[[v n] rest]|] eqn:Hscan;
    [|discriminate].
  destruct (n =? 0); [discriminate|].
  destruct ((640 <? n) && (0 <? max_str_digits) && (max_str_digits <? n));
    [discriminate|].
  destruct (lstrip_by isspace_numeric rest) eqn:Hrest; [|discriminate].
  apply (scan_digits_all int_char _ _ _ _ _ _ _) with (3 := Hscan).
  - intros c0 Hc0. unfold int_char. rewrite Hc0. now rewrite !orb_true_r.
  - reflexivity.
  - apply (all_chars_weaken isspace_numeric).
    + intros c0 Hc0. unfold int_char. now rewrite Hc0.
    + now apply lstrip_by_empty.
Qed.

Lemma int_of_str_no_colon (max_str_digits : Z) (s : string) (a : Z) :
  int_of_str max_str_digits s = Ok a -> all_chars not_colon s = true.
Proof.
  intros H. apply (all_chars_weaken int_char); [|now apply int_of_str_chars in H].
  intros c. unfold int_char, not_colon, is_char.
  destruct (Ascii.eqb c ":") eqn:E; [|reflexivity].
  apply Ascii.eqb_eq in E. subst c. vm_compute. discriminate.
Qed.

(** [int] raises nothing but [ValueError]. *)
Lemma int_of_str_raises (max_str_digits : Z) (s : string) (x : exn) :
  int_of_str max_str_digits s = Raise x -> exists msg, x = ValueError msg.
Proof.
  unfold int_of_str, int_error.
  destruct (parse_sign (lstrip_by isspace_numeric s)) as [neg s2].
  destruct s2 as [|c s2']; [intros H; inversion H; eauto|].
  destruct (is_char c "_"); [intros H; inversion H; eauto|].
  destruct (scan_digits (String c s2') 0 0 false) as [[[v n] rest]|];
    [|intros H; inversion H; eauto].
  destruct (n =? 0); [intros H; inversion H; eauto|].
  destruct ((640 <? n) && (0 <? max_str_digits) && (max_str_digits <? n));
    [intros H; inversion H; eauto|].
  destruct (lstrip_by isspace_numeric rest); intros H; inversion H; eauto.
Qed.

Lemma split_nonempty (sep : ascii) (s : string) : split sep s <> [].
Proof.
  destruct s as [|c s]; simpl; [discriminate|].
  destruct (Ascii.eqb c sep); [discriminate|].
  destruct (split sep s); discriminate.
Qed.

(** A text without the separator is one field. *)
Lemma split_no_sep (s : string) :
  all_chars not_colon s = true -> split ":" s = [s].
Proof.
  induction s as [|c s IH]; simpl; [reflexivity|].
  unfold not_colon at 1, is_char. intros H. apply andb_true_iff in H.
  destruct H as [Hc Hs]. apply negb_true_iff in Hc. rewrite Hc, (IH Hs). reflexivity.
Qed.

(** The first field ends at the first separator. *)
Lemma split_field (h r : string) :
  all_chars not_colon h = true ->
  split ":" (h ++ ":" ++ r) = h :: split ":" r.
Proof.
  induction h as [|c h IH]; simpl; [reflexivity|].
  unfold not_colon at 1, is_char. intros H. apply andb_true_iff in H.
  destruct H as [Hc Hs]. apply negb_true_iff in Hc. rewrite Hc.
  simpl in IH. rewrite (IH Hs). reflexivity.
Qed.

(** Joining the fields with the separator gives the text back. *)
Lemma concat_split (s : string) : String.concat ":" (split ":" s) = s.
Proof.
  induction s as [|c s IH]; simpl; [reflexivity|].
  destruct (Ascii.eqb c ":") eqn:E.
  - apply Ascii.eqb_eq in E. subst c.
    destruct (split ":" s) as [|x xs] eqn:Hs; [now apply split_nonempty in Hs|].
    simpl. simpl in IH. now rewrite IH.
  - destruct (split ":" s) as [|x xs] eqn:Hs; [now apply split_nonempty in Hs|].
    simpl in *. destruct xs; simpl in *; now rewrite IH.
Qed.

Lemma unpack3_ok {A : Type} (f : string -> res A) (xs : list string) (a b c : A) :
  unpack3 f xs = Ok (a, b, c) ->
  exists x y z, xs = [x; y; z] /\ f x = Ok a /\ f y = Ok b /\ f z = Ok c.
Proof.
  destruct xs as [|x [|y [|z [|w xs]]]]; simpl; try discriminate.
  - destruct (f x); discriminate.
  - destruct (f x); simpl; [|discriminate]. destruct (f y); discriminate.
  - destruct (f x) as [a'|] eqn:Ex; simpl; [|discriminate].
    destruct (f y) as [b'|] eqn:Ey; simpl; [|discriminate].
    destruct (f z) as [c'|] eqn:Ez; simpl; [|discriminate].
    intros H. inversion H; subst. exists x, y, z. auto.
  - destruct (f x); simpl; [|discriminate].
    destruct (f y); simpl; [|discriminate].
    destruct (f z); simpl; [|discriminate].
    destruct (f w); discriminate.
Qed.

Lemma unpack3_raises {A : Type} (f : string -> res A) (xs : list string) (x : exn) :
  (forall s y, f s = Raise y -> exists msg, y = ValueError msg) ->
  unpack3 f xs = Raise x -> exists msg, x = ValueError msg.
Proof.
  intros Hf.
  assert (Hstep : forall (B : Type) s (k : A -> res B),
             (forall a, k a = Raise x -> exists msg, x = ValueError msg) ->
             bind (f s) k = Raise x -> exists msg, x = ValueError msg).
  { intros B s k Hk. destruct (f s) as [a|y] eqn:E; simpl.
    - apply Hk.
    - intros H. inversion H; subst. eapply Hf; eauto. }
  assert (Hend : forall m, @Raise (A * A * A) (ValueError m) = Raise x ->
                           exists msg, x = ValueError msg).
  { intros m H. inversion H. eauto. }
  destruct xs as [|x1 [|x2 [|x3 [|x4 xs]]]]; simpl.
  - apply Hend.
  - apply Hstep. intros _. apply Hend.
  - apply Hstep. intros _. apply Hstep. intros _. apply Hend.
  - apply Hstep. intros a. apply Hstep. intros b. apply Hstep. intros c. discriminate.
  - apply Hstep. intros _. apply Hstep. intros _. apply Hstep. intros _.
    apply Hstep. intros _. apply Hend.
Qed.

(** ** [time_to_seconds] *)

(** C5. A text [h:m:s] whose three fields [int] accepts is converted to
    [h*3600 + m*60 + s]; a text that is not of this form, three fields
    separated by colons that [int] accepts, raises the format error. *)
Theorem time_to_seconds_spec (max_str_digits : Z) (t : string) :
  (forall h m s a b c,
      t = h ++ ":" ++ m ++ ":" ++ s ->
      int_of_str max_str_digits h = Ok a ->
      int_of_str max_str_digits m = Ok b ->
      int_of_str max_str_digits s = Ok c ->
      time_to_seconds max_str_digits t = Ok (a * 3600 + b * 60 + c)) /\
  ((forall h m s a b c,
       t = h ++ ":" ++ m ++ ":" ++ s ->
       int_of_str max_str_digits h = Ok a ->
       int_of_str max_str_digits m = Ok b ->
       int_of_str max_str_digits s = Ok c ->
       False) ->
   time_to_seconds max_str_digits t = Raise time_format_error).
Proof.
  split.
  - intros h m s a b c -> Ha Hb Hc. unfold time_to_seconds.
    rewrite split_field by (eapply int_of_str_no_colon; eauto).
    rewrite split_field by (eapply int_of_str_no_colon; eauto).
    rewrite split_no_sep by (eapply int_of_str_no_colon; eauto).
    simpl. rewrite Ha, Hb, Hc. reflexivity.
  - intros Hno. unfold time_to_seconds.
    destruct (unpack3 (int_of_str max_str_digits) (split ":" t))
      as [[[a b] c]|x] eqn:Hu; simpl.
    + exfalso. destruct (unpack3_ok _ _ _ _ _ Hu) as (h & m & s & Hs & Ha & Hb & Hc).
      apply (Hno h m s a b c); auto.
      rewrite <- (concat_split t), Hs. reflexivity.
    + destruct (unpack3_raises _ _ _ (int_of_str_raises max_str_digits) Hu) as [msg ->].
      reflexivity.
Qed.

Lemma time_to_seconds_spec_witness :
  time_to_seconds 4300 "01:02:03" = Ok (1 * 3600 + 2 * 60 + 3) /\
  time_to_seconds 4300 "7" = Raise time_format_error.
Proof.
  split.
  - apply (proj1 (time_to_seconds_spec 4300 "01:02:03") "01" "02" "03" 1 2 3);
      reflexivity.
  - apply (proj2 (time_to_seconds_spec 4300 "7")).
    intros h m s a b c E _ _ _.
    destruct h as [|c0 h]; simpl in E; [discriminate E|].
    injection E as _ E.
    destruct h; discriminate E.
Defined.

(** C10. [time_to_seconds] takes a negative field: ["00:00:-5"] gives
    [0*3600 + 0*60 + (-5)], that is -5, and no format error. *)
Theorem negative_component_accepted (max_str_digits : Z) :
  time_to_seconds max_str_digits "00:00:-5" = Ok (0 * 3600 + 0 * 60 + (-5)) /\
  time_to_seconds max_str_digits "00:00:-5" = Ok (-5) /\
  time_to_seconds max_str_digits "00:00:-5" <> Raise time_format_error.
Proof.
  repeat split; try reflexivity. discriminate.
Qed.

(** ** [write_output] *)

Lemma string_length_app (a b : string) :
  String.length (a ++ b) = (String.length a + String.length b)%nat.
Proof.
  induction a as [|c a IH]; simpl; [reflexivity | now rewrite IH].
Qed.

(** A text with something put before it is another text. *)
Lemma prefixed_differs (a b : string) : a ++ "/" ++ b <> b.
Proof.
  intros H. apply (f_equal String.length) in H.
  rewrite !string_length_app in H. simpl in H. lia.
Qed.

(** The loop of [write_output] writes one record for each line. *)
Lemma write_lines_trace (output_file base_url : string) (lines : list string) :
  write_lines output_file base_url lines =
    (map (fun line => EvWrite output_file (output_record base_url line)) lines, Ok tt).
Proof.
  induction lines as [|line rest IH]; simpl; [reflexivity|].
  rewrite IH. unfold output_record.
  destruct (endswith line ".ts"); reflexivity.
Qed.

Lemma file_records_writes (path : string) (records : list string) (tr : list event)
  (acc : list string) :
  file_records path (map (EvWrite path) records ++ tr)%list acc =
    file_records path tr (acc ++ records)%list.
Proof.
  revert acc. induction records as [|r records IH]; intros acc; simpl.
  - now rewrite app_nil_r.
  - rewrite String.eqb_refl, IH, <- app_assoc. reflexivity.
Qed.

Lemma write_output_trace (output_file base_url : string) (lines : list string) :
  write_output output_file lines base_url =
    ((EvOpen output_file ::
      map (EvWrite output_file) (map (output_record base_url) lines) ++
      [EvWrite output_file ("#EXT-X-ENDLIST" ++ nl)%string; EvClose output_file;
       EvPrint ("New m3u8 file saved as " ++ output_file)%string])%list,
     Ok tt).
Proof.
  unfold write_output. rewrite write_lines_trace. rewrite map_map. reflexivity.
Qed.

(** What [write_output] leaves in the file it writes. *)
Lemma write_output_file (output_file base_url : string) (lines : list string) :
  file_records output_file (fst (write_output output_file lines base_url)) [] =
    (map (output_record base_url) lines ++ [("#EXT-X-ENDLIST" ++ nl)%string])%list.
Proof.
  rewrite write_output_trace. simpl.
  rewrite String.eqb_refl. rewrite file_records_writes. simpl.
  now rewrite String.eqb_refl.
Qed.

(** C7. [write_output] raises nothing and leaves in the file one record
    for each line, in the order of the list, followed by one end-of-list
    record: the record of a line ending in [.ts] is the base URL, a slash
    and the line, that of any other line is the line itself.  The record of
    a line ending in [.ts] is never the bare line. *)
Theorem write_output_records (output_file base_url : string) (lines : list string) :
  let written := file_records output_file (fst (write_output output_file lines base_url)) [] in
  snd (write_output output_file lines base_url) = Ok tt /\
  written = (map (output_record base_url) lines ++ [("#EXT-X-ENDLIST" ++ nl)%string])%list /\
  (forall i line,
      nth_error lines i = Some line ->
      nth_error written i =
        Some (if endswith line ".ts" then base_url ++ "/" ++ line ++ nl else line ++ nl)) /\
  (forall i line,
      nth_error lines i = Some line ->
      endswith line ".ts" = true ->
      nth_error written i <> Some (line ++ nl)).
Proof.
  intros written.
  assert (Hw : written =
                 (map (output_record base_url) lines ++ [("#EXT-X-ENDLIST" ++ nl)%string])%list).
  { apply write_output_file. }
  assert (Hnth : forall i line,
             nth_error lines i = Some line ->
             nth_error written i = Some (output_record base_url line)).
  { intros i line Hi. rewrite Hw.
    rewrite nth_error_app1 by (rewrite length_map; apply nth_error_Some; congruence).
    now rewrite nth_error_map, Hi. }
  repeat split.
  - now rewrite write_output_trace.
  - exact Hw.
  - exact Hnth.
  - intros i line Hi Hts. rewrite (Hnth _ _ Hi). unfold output_record. rewrite Hts.
    intros H. injection H as H. revert H.
    change (base_url ++ "/" ++ line ++ nl) with (base_url ++ "/" ++ (line ++ nl)).
    apply prefixed_differs.
Qed.

Lemma write_output_records_witness :
  nth_error
    (file_records "cut.m3u8"
       (fst (write_output "cut.m3u8" ["#EXTM3U"; "#EXTINF:10.0,"; "seg2.ts"]
               "http://host/live")) []) 2
  = Some ("http://host/live/seg2.ts" ++ nl) /\
  nth_error
    (file_records "cut.m3u8"
       (fst (write_output "cut.m3u8" ["#EXTM3U"; "#EXTINF:10.0,"; "seg2.ts"]
               "http://host/live")) []) 2
  <> Some ("seg2.ts" ++ nl).
Proof.
  pose proof (write_output_records "cut.m3u8" "http://host/live"
                ["#EXTM3U"; "#EXTINF:10.0,"; "seg2.ts"]) as H.
  cbv zeta in H. destruct H as (_ & _ & Hrec & Hbare).
  split.
  - apply (Hrec 2%nat "seg2.ts"). reflexivity.
  - apply (Hbare 2%nat "seg2.ts"); reflexivity.
Defined.

(** ** A window over the whole playlist *)

(** Inside the range, while no segment starts at or after [end_seconds],
    every duration line and every reference line is appended. *)
Lemma for_loop_segments (s e : Z) (lines : list string) (st : loop_state) (f : flow) :
  add_start st = false ->
  inside_range st = true ->
  for_loop s e lines st = Ok f ->
  (forall p1 x p2, lines = (p1 ++ x :: p2)%list -> is_duration_line x = true ->
                   num_ge (fold_left num_add (durations p1) (total_time st)) e = false) ->
  result (flow_state f) = (result st ++ flat_map segment_part lines)%list.
Proof.
  revert st. induction lines as [|raw rest IH]; intros st Ha Hi Hf Hlt; simpl in Hf.
  - inversion Hf. simpl. now rewrite app_nil_r.
  - body_cases s e st raw; rewrite Hb in Hf; simpl in Hf; try discriminate.
    + destruct (loop_tail_fields (strip raw) st) as (Et & Ei & Ea & Er).
      rewrite (IH (loop_tail (strip raw) st)); auto; try congruence.
      * rewrite Er, Ha, Hi. simpl. unfold segment_part, is_reference_line.
        rewrite Hd. simpl. now rewrite <- app_assoc.
      * intros p1 x p2 E Hdx. rewrite Et.
        specialize (Hlt (raw :: p1) x p2). simpl in Hlt. rewrite Hd in Hlt.
        apply Hlt; [now rewrite E | exact Hdx].
    + specialize (Hlt [] raw rest eq_refl Hd). simpl in Hlt. congruence.
    + rewrite (IH (after_duration s st (strip raw) d)); auto.
      * unfold after_duration; simpl. rewrite Hi. simpl.
        unfold segment_part, is_reference_line. rewrite Hd.
        now rewrite <- !app_assoc.
      * unfold after_duration; simpl. now rewrite Hi.
      * intros p1 x p2 E Hdx. unfold after_duration; simpl.
        specialize (Hlt (raw :: p1) x p2). simpl in Hlt. rewrite Hd, Hx in Hlt.
        apply Hlt; [now rewrite E | exact Hdx].
Qed.

(** The same from the top of the playlist, header included, when the range
    opens at the first segment. *)
Lemma for_loop_keep_all (s e : Z) (lines : list string) (st : loop_state) (f : flow) :
  add_start st = true ->
  inside_range st = false ->
  num_ge (total_time st) s = true ->
  for_loop s e lines st = Ok f ->
  (forall p1 x p2, lines = (p1 ++ x :: p2)%list -> is_duration_line x = true ->
                   num_ge (fold_left num_add (durations p1) (total_time st)) e = false) ->
  result (flow_state f) = (result st ++ keep_all lines)%list.
Proof.
  revert st. induction lines as [|raw rest IH]; intros st Ha Hi Hs Hf Hlt.
  - simpl in Hf. inversion Hf. simpl. now rewrite app_nil_r.
  - simpl keep_all. simpl in Hf.
    body_cases s e st raw; rewrite Hb in Hf; simpl in Hf; try discriminate; rewrite Hd.
    + destruct (loop_tail_fields (strip raw) st) as (Et & Ei & Ea & Er).
      rewrite (IH (loop_tail (strip raw) st)); auto; try congruence.
      * rewrite Er, Ha, Hi. simpl. now rewrite <- app_assoc.
      * intros p1 x p2 E Hdx. rewrite Et.
        specialize (Hlt (raw :: p1) x p2). simpl in Hlt. rewrite Hd in Hlt.
        apply Hlt; [now rewrite E | exact Hdx].
    + specialize (Hlt [] raw rest eq_refl Hd). simpl in Hlt. congruence.
    + rewrite (for_loop_segments s e rest (after_duration s st (strip raw) d) f); auto.
      * unfold after_duration; simpl. rewrite Hs, orb_true_r. simpl.
        unfold segment_part at 2, is_reference_line. rewrite Hd.
        now rewrite <- !app_assoc.
      * unfold after_duration; simpl. now rewrite Hs, orb_true_r.
      * intros p1 x p2 E Hdx. unfold after_duration; simpl.
        specialize (Hlt (raw :: p1) x p2). simpl in Hlt. rewrite Hd, Hx in Hlt.
        apply Hlt; [now rewrite E | exact Hdx].
Qed.

(** C8, as the program has it.  With the window opening at 0, when every
    segment starts before [end_seconds] (its cumulative start time is not
    at or above it), the output is the header and every duration line and
    reference line, in the order of the playlist, and the file written from
    it ends with the end-of-list record. *)
Theorem whole_playlist_kept (lines : list string) (e : Z) (out : list string)
  (output_file base_url : string) :
  filter_segments lines 0 e = Ok out ->
  (forall p1 x p2, lines = (p1 ++ x :: p2)%list -> is_duration_line x = true ->
                   num_ge (cumulative_start p1) e = false) ->
  out = keep_all lines /\
  last (file_records output_file (fst (write_output output_file out base_url)) [])
       EmptyString = "#EXT-X-ENDLIST" ++ nl.
Proof.
  intros Hf Hlt. split.
  - unfold filter_segments in Hf. apply bind_ok in Hf.
    destruct Hf as (f & Hf & Hout). inversion Hout; subst out.
    rewrite (for_loop_keep_all 0 e lines init_state f); auto.
  - rewrite write_output_file. apply last_last.
Qed.

Lemma whole_playlist_kept_witness :
  ["#EXTM3U"; "#EXTINF:10,"; "a.ts"; "#EXTINF:0.5,"; "b.ts"] =
    keep_all ["#EXTM3U"; "#EXTINF:10,"; "a.ts"; " #EXTINF:0.5, "; "b.ts "; "#EXT-X-ENDLIST"] /\
  last (file_records "cut.m3u8"
          (fst (write_output "cut.m3u8"
                  ["#EXTM3U"; "#EXTINF:10,"; "a.ts"; "#EXTINF:0.5,"; "b.ts"]
                  "http://host/live")) [])
       EmptyString = "#EXT-X-ENDLIST" ++ nl.
Proof.
  apply (whole_playlist_kept
           ["#EXTM3U"; "#EXTINF:10,"; "a.ts"; " #EXTINF:0.5, "; "b.ts "; "#EXT-X-ENDLIST"]
           11).
  - vm_compute. reflexivity.
  - intros p1 x p2 E Hx.
    destruct p1 as [|? p1]; simpl in E; injection E as Ex E;
      [subst x; discriminate Hx|].
    destruct p1 as [|? p1]; simpl in E; injection E as Ex1 E;
      [subst; vm_compute; reflexivity|].
    destruct p1 as [|? p1]; simpl in E; injection E as Ex2 E;
      [subst x; discriminate Hx|].
    destruct p1 as [|? p1]; simpl in E; injection E as Ex3 E;
      [subst; vm_compute; reflexivity|].
    destruct p1 as [|? p1]; simpl in E; injection E as Ex4 E;
      [subst x; discriminate Hx|].
    destruct p1 as [|? p1]; simpl in E; injection E as Ex5 E;
      [subst x; discriminate Hx|].
    destruct p1; discriminate E.
Defined.

(** C8 as stated fails.  Two segments of 10 and 0 seconds have the total
    duration 10; with the window from 0 to 10 the second segment starts at
    10, the scan stops there, and neither of its lines is in the output. *)
Lemma whole_playlist_counterexample :
  num_le (cumulative_start ["#EXTINF:10,"; "a.ts"; "#EXTINF:0,"; "b.ts"]) 10 = true /\
  filter_segments ["#EXTINF:10,"; "a.ts"; "#EXTINF:0,"; "b.ts"] 0 10 =
    Ok ["#EXTINF:10,"; "a.ts"] /\
  ~ (exists out,
        filter_segments ["#EXTINF:10,"; "a.ts"; "#EXTINF:0,"; "b.ts"] 0 10 = Ok out /\
        In "#EXTINF:0," out /\ In "b.ts" out).
Proof.
  split; [vm_compute; reflexivity|].
  split; [vm_compute; reflexivity|].
  intros (out & Hout & _ & Hin).
  vm_compute in Hout. inversion Hout; subst out.
  simpl in Hin. destruct Hin as [H | [H | []]]; discriminate H.
Qed.

(** ** [parse_m3u8] *)

Section ParseM3u8.

Variable max_str_digits : Z.
Variable http_get : string -> response.
Variable urljoin : string -> string -> string.

(** [time_to_seconds] raises nothing but the format error. *)
Lemma time_to_seconds_raises (t : string) (x : exn) :
  time_to_seconds max_str_digits t = Raise x -> x = time_format_error.
Proof.
  unfold time_to_seconds.
  destruct (unpack3 (int_of_str max_str_digits) (split ":" t)) as [[[a b] c]|y] eqn:Hu;
    simpl; [discriminate|].
  destruct (unpack3_raises _ _ _ (int_of_str_raises max_str_digits) Hu) as [msg ->].
  intros H. now inversion H.
Qed.

(** C1, as the program has it.  When a time text is malformed or the start
    is not before the end, [parse_m3u8] first performs the GET and opens or
    writes no file.  If the GET succeeds, the GET is all that happens and
    the format or range error is raised; if the GET raises a
    [requests.RequestException], the failure is printed and nothing is
    raised; any other exception of the GET leaves [parse_m3u8] as it is,
    and the GET is all that has happened. *)
Theorem bad_times_after_get (url start_time end_time output_file : string) :
  (exists x, time_to_seconds max_str_digits start_time = Raise x) \/
  (exists x, time_to_seconds max_str_digits end_time = Raise x) \/
  (exists a b, time_to_seconds max_str_digits start_time = Ok a /\
               time_to_seconds max_str_digits end_time = Ok b /\ b <= a) ->
  let run := parse_m3u8 max_str_digits http_get urljoin url start_time end_time output_file in
  (exists rest, fst run = EvGet url :: rest) /\
  forallb (fun ev => negb (is_file_event ev)) (fst run) = true /\
  (forall text, http_get url = Response text ->
     fst run = [EvGet url] /\
     (snd run = Raise time_format_error \/
      snd run = Raise (ValueError "Start time must be before end time."))) /\
  (forall msg, http_get url = RequestException msg ->
     fst run = [EvGet url; EvPrint ("Failed to download m3u8 file from " ++ url ++ ": " ++ msg)] /\
     snd run = Ok tt) /\
  (forall e, http_get url = GetRaised e ->
     fst run = [EvGet url] /\ snd run = Raise e).
Proof.
  intros Hbad run.
  assert (Hok : forall text, http_get url = Response text ->
            fst run = [EvGet url] /\
            (snd run = Raise time_format_error \/
             snd run = Raise (ValueError "Start time must be before end time."))).
  { intros text Hr. unfold run, parse_m3u8. rewrite Hr. simpl.
    destruct (time_to_seconds max_str_digits start_time) as [a|x] eqn:Hs; simpl.
    - destruct (time_to_seconds max_str_digits end_time) as [b|x] eqn:He; simpl.
      + destruct Hbad as [[x Hx] | [[x Hx] | (a' & b' & Ha & Hb & Hle)]];
          try discriminate.
        inversion Ha; inversion Hb; subst a' b'.
        apply Z.leb_le in Hle. rewrite Hle. simpl. auto.
      + rewrite (time_to_seconds_raises _ _ He). auto.
    - rewrite (time_to_seconds_raises _ _ Hs). auto. }
  assert (Hfail : forall msg, http_get url = RequestException msg ->
            fst run = [EvGet url; EvPrint ("Failed to download m3u8 file from " ++ url ++ ": " ++ msg)] /\
            snd run = Ok tt).
  { intros msg Hr. unfold run, parse_m3u8. rewrite Hr. simpl. auto. }
  assert (Hother : forall e, http_get url = GetRaised e ->
            fst run = [EvGet url] /\ snd run = Raise e).
  { intros e Hr. unfold run, parse_m3u8. rewrite Hr. simpl. auto. }
  repeat split.
  - destruct (http_get url) as [text|msg|e] eqn:Hr.
    + destruct (Hok text eq_refl) as [-> _]. eauto.
    + destruct (Hfail msg eq_refl) as [-> _]. eauto.
    + destruct (Hother e eq_refl) as [-> _]. eauto.
  - destruct (http_get url) as [text|msg|e] eqn:Hr.
    + destruct (Hok text eq_refl) as [-> _]. reflexivity.
    + destruct (Hfail msg eq_refl) as [-> _]. reflexivity.
    + destruct (Hother e eq_refl) as [-> _]. reflexivity.
  - apply (Hok text H).
  - apply (Hok text H).
  - apply (Hfail msg H).
  - apply (Hfail msg H).
  - apply (Hother e H).
  - apply (Hother e H).
Qed.

End ParseM3u8.

Lemma bad_times_after_get_witness :
  fst (parse_m3u8 4300 (fun _ => Response "#EXTM3U") (fun base _ => base)
         "http://host/live/index.m3u8" "00:00:10" "00:00:05" "cut.m3u8")
  = [EvGet "http://host/live/index.m3u8"] /\
  (snd (parse_m3u8 4300 (fun _ => Response "#EXTM3U") (fun base _ => base)
          "http://host/live/index.m3u8" "00:00:10" "00:00:05" "cut.m3u8")
   = Raise time_format_error \/
   snd (parse_m3u8 4300 (fun _ => Response "#EXTM3U") (fun base _ => base)
          "http://host/live/index.m3u8" "00:00:10" "00:00:05" "cut.m3u8")
   = Raise (ValueError "Start time must be before end time.")).
Proof.
  assert (Hbad :
    (exists x, time_to_seconds 4300 "00:00:10" = Raise x) \/
    (exists x, time_to_seconds 4300 "00:00:05" = Raise x) \/
    (exists a b, time_to_seconds 4300 "00:00:10" = Ok a /\
                 time_to_seconds 4300 "00:00:05" = Ok b /\ b <= a)).
  { right. right. exists 10, 5. repeat split; try reflexivity. lia. }
  pose proof (bad_times_after_get 4300 (fun _ => Response "#EXTM3U") (fun base _ => base)
                "http://host/live/index.m3u8" "00:00:10" "00:00:05" "cut.m3u8" Hbad) as H.
  cbv zeta in H. destruct H as (_ & _ & Hok & _).
  apply (Hok "#EXTM3U"). reflexivity.
Defined.

(** C1 as stated fails.  The times 00:00:10 and 00:00:05 are well formed
    and the start is not before the end; on a server that answers, the
    range error is raised, but only after the GET: the trace of the call is
    not empty. *)
Lemma bad_times_counterexample :
  time_to_seconds 4300 "00:00:10" = Ok 10 /\
  time_to_seconds 4300 "00:00:05" = Ok 5 /\
  5 <= 10 /\
  parse_m3u8 4300 (fun _ => Response "#EXTM3U") (fun base _ => base)
    "http://host/live/index.m3u8" "00:00:10" "00:00:05" "cut.m3u8"
  = ([EvGet "http://host/live/index.m3u8"],
     Raise (ValueError "Start time must be before end time.")) /\
  fst (parse_m3u8 4300 (fun _ => Response "#EXTM3U") (fun base _ => base)
         "http://host/live/index.m3u8" "00:00:10" "00:00:05" "cut.m3u8") <> [].
Proof.
  repeat split; try reflexivity; try lia. discriminate.
Qed.


(** * Further properties of the program *)

(** ** What [filter_segments] puts in its output *)

Lemma copies_none (lines : list string) :
  copies lines (repeat 0%nat (List.length lines)) = [].
Proof.
  induction lines as [|raw rest IH]; simpl; auto.
Qed.

Lemma copies_in (lines : list string) (count : list nat) (l : string) :
  In l (copies lines count) -> exists raw, In raw lines /\ l = strip raw.
Proof.
  revert count. induction lines as [|raw rest IH]; intros count; simpl; [tauto|].
  destruct count as [|k count]; simpl; [tauto|].
  intros H. apply in_app_or in H. destruct H as [H|H].
  - apply repeat_spec in H. exists raw. auto.
  - destruct (IH _ H) as (raw' & Hin & E). exists raw'. auto.
Qed.

(** An iteration appends the stripped line at most twice and nothing else. *)
Lemma loop_body_copies (s e : Z) (st : loop_state) (raw : string) (f : flow) :
  loop_body s e st raw = Ok f ->
  exists k, (k <= 2)%nat /\
            result (flow_state f) = (result st ++ repeat (strip raw) k)%list.
Proof.
  intros H. body_cases s e st raw; rewrite Hb in H; inversion H; subst; simpl.
  - destruct (loop_tail_fields (strip raw) st) as (_ & _ & _ & ->).
    destruct (add_start st); destruct (inside_range st && endswith (strip raw) ".ts");
      [exists 2%nat | exists 1%nat | exists 1%nat | exists 0%nat]; split; auto.
  - exists 0%nat. simpl. rewrite app_nil_r. auto.
  - destruct (inside_range st || num_ge (total_time st) s); simpl.
    + destruct (endswith (strip raw) ".ts");
        [exists 2%nat | exists 1%nat]; split; auto.
    + exists 0%nat. auto.
Qed.

Lemma for_loop_copies (s e : Z) (lines : list string) (st : loop_state) (f : flow) :
  for_loop s e lines st = Ok f ->
  exists count,
    List.length count = List.length lines /\
    Forall (fun k => (k <= 2)%nat) count /\
    result (flow_state f) = (result st ++ copies lines count)%list.
Proof.
  revert st. induction lines as [|raw rest IH]; intros st; simpl.
  - intros H. inversion H. exists []. simpl. rewrite app_nil_r. auto.
  - destruct (loop_body s e st raw) as [g|x] eqn:Hb; simpl; [|discriminate].
    destruct (loop_body_copies _ _ _ _ _ Hb) as (k & Hk & Ek).
    destruct g as [st'|st']; simpl in *; intros H.
    + destruct (IH _ H) as (count & Hlen & Hall & E).
      exists (k :: count). simpl. repeat split; auto.
      now rewrite E, Ek, <- app_assoc.
    + inversion H; subst f. simpl.
      exists (k :: repeat 0%nat (List.length rest)). simpl.
      rewrite repeat_length, copies_none, app_nil_r. repeat split; auto.
      constructor; [exact Hk|]. apply Forall_forall. intros n Hn.
      apply repeat_spec in Hn. subst n. lia.
Qed.

(** Until a duration line is met the scan is outside the range. *)
Lemma loop_body_header_outside (s e : Z) (st : loop_state) (raw : string) (f : flow) :
  (add_start st = true -> inside_range st = false) ->
  loop_body s e st raw = Ok f ->
  add_start (flow_state f) = true -> inside_range (flow_state f) = false.
Proof.
  intros Hinv H Ha. body_cases s e st raw; rewrite Hb in H; inversion H; subst;
    simpl in Ha; try discriminate.
  destruct (loop_tail_fields (strip raw) st) as (_ & Ei & Ea & _).
  simpl. rewrite Ei. apply Hinv. congruence.
Qed.

(** An iteration appends the stripped line twice only when it is a
    duration line that ends in the suffix of a reference. *)
Lemma loop_body_twice (s e : Z) (st : loop_state) (raw : string) (f : flow) :
  (add_start st = true -> inside_range st = false) ->
  loop_body s e st raw = Ok f ->
  exists k, (k <= 2)%nat /\
            (k = 2%nat -> is_duration_line raw = true /\ is_reference_line raw = true) /\
            result (flow_state f) = (result st ++ repeat (strip raw) k)%list.
Proof.
  intros Hinv H. body_cases s e st raw; rewrite Hb in H; inversion H; subst; simpl.
  - destruct (loop_tail_fields (strip raw) st) as (_ & _ & _ & ->).
    destruct (add_start st) eqn:Ha.
    + rewrite (Hinv eq_refl). simpl. exists 1%nat. repeat split; auto; discriminate.
    + destruct (inside_range st && endswith (strip raw) ".ts");
        [exists 1%nat | exists 0%nat]; repeat split; auto; discriminate.
  - exists 0%nat. simpl. rewrite app_nil_r. repeat split; auto; discriminate.
  - destruct (inside_range st || num_ge (total_time st) s); simpl.
    + unfold is_reference_line. destruct (endswith (strip raw) ".ts");
        [exists 2%nat | exists 1%nat]; repeat split; auto; discriminate.
    + exists 0%nat. repeat split; auto; discriminate.
Qed.

Lemma for_loop_twice (s e : Z) (lines : list string) (st : loop_state) (f : flow) :
  (add_start st = true -> inside_range st = false) ->
  for_loop s e lines st = Ok f ->
  exists count,
    Forall2 (fun raw k =>
               (k <= 2)%nat /\
               (k = 2%nat -> is_duration_line raw = true /\ is_reference_line raw = true))
            lines count /\
    result (flow_state f) = (result st ++ copies lines count)%list.
Proof.
  revert st. induction lines as [|raw rest IH]; intros st Hinv; simpl.
  - intros H. inversion H. exists []. simpl. rewrite app_nil_r. auto.
  - destruct (loop_body s e st raw) as [g|x] eqn:Hb; simpl; [|discriminate].
    destruct (loop_body_twice _ _ _ _ _ Hinv Hb) as (k & Hk & Htwice & Ek).
    pose proof (loop_body_header_outside _ _ _ _ _ Hinv Hb) as Hinv'.
    destruct g as [st'|st']; simpl in *; intros H.
    + destruct (IH _ Hinv' H) as (count & Hall & E).
      exists (k :: count). simpl. split; [constructor; auto|].
      now rewrite E, Ek, <- app_assoc.
    + inversion H; subst f. simpl.
      exists (k :: repeat 0%nat (List.length rest)). simpl.
      rewrite copies_none, app_nil_r. split; [|exact Ek].
      constructor; [auto|].
      clear. induction rest as [|r rest IHr]; simpl; constructor; auto.
      split; [lia | discriminate].
Qed.

(** X1. The output of [filter_segments] is made of the stripped input
    lines, in their order: each input line stands in it at most twice,
    twice only when it is a duration line that also ends in [.ts], and
    nothing else stands in it. *)
Theorem output_from_input_lines (lines : list string) (s e : Z) (out : list string) :
  filter_segments lines s e = Ok out ->
  exists count,
    List.length count = List.length lines /\
    Forall (fun k => (k <= 2)%nat) count /\
    Forall2 (fun raw k =>
               k = 2%nat -> is_duration_line raw = true /\ is_reference_line raw = true)
            lines count /\
    out = copies lines count.
Proof.
  unfold filter_segments. intros H. apply bind_ok in H.
  destruct H as (f & Hf & Hout). inversion Hout; subst out.
  destruct (for_loop_twice s e lines init_state f) as (count & Hall & E);
    [intros _; reflexivity | exact Hf |].
  exists count. split; [|split; [|split]].
  - symmetry. exact (Forall2_length Hall).
  - clear E Hf Hout. induction Hall as [|raw k rest count' [Hk _] _ IH]; constructor; auto.
  - clear E Hf Hout. induction Hall as [|raw k rest count' [_ Ht] _ IH]; constructor; auto.
  - exact E.
Qed.

Lemma output_from_input_lines_witness :
  exists count,
    List.length count = 4%nat /\
    Forall (fun k => (k <= 2)%nat) count /\
    Forall2 (fun raw k =>
               k = 2%nat -> is_duration_line raw = true /\ is_reference_line raw = true)
            [" #EXTINF:5,"; "a.ts"; "#EXTINF:4:.ts "; "b.ts"] count /\
    ["#EXTINF:4:.ts"; "#EXTINF:4:.ts"; "b.ts"] =
      copies [" #EXTINF:5,"; "a.ts"; "#EXTINF:4:.ts "; "b.ts"] count.
Proof.
  apply (output_from_input_lines
           [" #EXTINF:5,"; "a.ts"; "#EXTINF:4:.ts "; "b.ts"] 5 20).
  vm_compute. reflexivity.
Defined.

Lemma rstrip_by_idempotent (p : ascii -> bool) (s : string) :
  rstrip_by p (rstrip_by p s) = rstrip_by p s.
Proof.
  induction s as [|c s IH]; simpl; [reflexivity|].
  destruct (rstrip_by p s) as [|c' r] eqn:E.
  - destruct (p c) eqn:Hc; simpl; [reflexivity | now rewrite Hc].
  - simpl. simpl in IH. rewrite IH. reflexivity.
Qed.

Lemma lstrip_by_head (p : ascii -> bool) (s : string) :
  lstrip_by p s = EmptyString \/
  exists c r, lstrip_by p s = String c r /\ p c = false.
Proof.
  induction s as [|c s IH]; simpl; [auto|].
  destruct (p c) eqn:Hc; [exact IH|]. right. eauto.
Qed.

Lemma lstrip_rstrip (p : ascii -> bool) (c : ascii) (r : string) :
  p c = false ->
  lstrip_by p (rstrip_by p (String c r)) = rstrip_by p (String c r).
Proof.
  intros Hc. simpl. destruct (rstrip_by p r); rewrite ?Hc; simpl; rewrite ?Hc; reflexivity.
Qed.

(** Stripping a stripped text changes nothing. *)
Lemma strip_idempotent (s : string) : strip (strip s) = strip s.
Proof.
  unfold strip.
  destruct (lstrip_by_head isspace s) as [-> | (c & r & -> & Hc)]; [reflexivity|].
  rewrite lstrip_rstrip by exact Hc. apply rstrip_by_idempotent.
Qed.

(** X2. No line of the output of [filter_segments] has white space at
    either end: stripping it again changes nothing. *)
Theorem output_lines_stripped (lines : list string) (s e : Z) (out : list string)
  (l : string) :
  filter_segments lines s e = Ok out ->
  In l out ->
  strip l = l.
Proof.
  unfold filter_segments. intros H Hin. apply bind_ok in H.
  destruct H as (f & Hf & Hout). inversion Hout; subst out.
  destruct (for_loop_copies _ _ _ _ _ Hf) as (count & _ & _ & E).
  rewrite E in Hin. simpl in Hin.
  destruct (copies_in _ _ _ Hin) as (raw & _ & ->).
  apply strip_idempotent.
Qed.

Lemma output_lines_stripped_witness : strip "a.ts" = "a.ts".
Proof.
  apply (output_lines_stripped ["#EXTINF:5,"; "  a.ts  "] 0 20 ["#EXTINF:5,"; "a.ts"]).
  - vm_compute. reflexivity.
  - right. left. reflexivity.
Defined.

(** ** Lines that are neither duration nor reference *)

Lemma loop_body_add_start (s e : Z) (st : loop_state) (raw : string) (f : flow) :
  loop_body s e st raw = Ok f ->
  add_start (flow_state f) = true ->
  add_start st = true /\ is_duration_line raw = false.
Proof.
  intros H Ha. body_cases s e st raw; rewrite Hb in H; inversion H; subst;
    simpl in Ha; try discriminate.
  destruct (loop_tail_fields (strip raw) st) as (_ & _ & E & _).
  rewrite E in Ha. auto.
Qed.

(** [add_start] is still set only when no duration line was met. *)
Lemma for_loop_add_start (s e : Z) (lines : list string) (st0 st : loop_state) :
  for_loop s e lines st0 = Ok (Next st) ->
  add_start st = true ->
  add_start st0 = true /\ (forall x, In x lines -> is_duration_line x = false).
Proof.
  revert st0. induction lines as [|raw rest IH]; intros st0; simpl.
  - intros H Ha. inversion H; subst. split; [exact Ha | tauto].
  - destruct (loop_body s e st0 raw) as [[st1|st1]|x] eqn:Hb; simpl; try discriminate.
    intros H Ha. destruct (IH _ H Ha) as [Ha1 Hrest].
    destruct (loop_body_add_start _ _ _ _ _ Hb Ha1) as [Ha0 Hraw].
    split; [exact Ha0|]. intros x [<- | Hin]; auto.
Qed.

(** X3. A line that is neither a duration line nor a reference line is
    kept only in the header: once a duration line has been met, such a
    line (a directive between segments, the end-of-list directive of the
    input) is never kept, whatever the window. *)
Theorem plain_line_kept_only_in_header (s e : Z) (pre : list string) (raw : string) :
  is_duration_line raw = false ->
  is_reference_line raw = false ->
  kept_at s e pre raw = true ->
  forall x, In x pre -> is_duration_line x = false.
Proof.
  intros Hd Hr Hk.
  destruct (kept_at_next _ _ _ _ Hk) as (st & st' & Hs & Hb).
  unfold kept_at in Hk. rewrite Hs, Hb in Hk. simpl in Hk.
  rewrite loop_body_other in Hb by exact Hd. inversion Hb; subst st'.
  destruct (loop_tail_fields (strip raw) st) as (_ & _ & _ & E).
  rewrite E in Hk. unfold is_reference_line in Hr. rewrite Hr, andb_false_r in Hk.
  destruct (add_start st) eqn:Ha.
  - apply (for_loop_add_start _ _ _ _ _ Hs Ha).
  - simpl in Hk. rewrite app_nil_r, Nat.eqb_refl in Hk. discriminate.
Qed.

Lemma plain_line_kept_only_in_header_witness :
  is_duration_line "#EXTM3U" = false.
Proof.
  apply (plain_line_kept_only_in_header 0 20 ["#EXTM3U"] "#EXT-X-VERSION:3");
    try (vm_compute; reflexivity).
  left. reflexivity.
Defined.

(** ** The exceptions of [filter_segments] *)

(** X4. A duration line whose duration cannot be read makes
    [filter_segments] raise as soon as the scan reaches it, for every
    window: the duration is read before the end of the window is checked,
    so the line raises even when it starts at or after [end_seconds]. *)
Theorem unreadable_duration_raises (s e : Z) (pre post : list string) (raw : string)
  (st : loop_state) (x : exn) :
  scan s e pre = Ok (Next st) ->
  is_duration_line raw = true ->
  extinf_duration (strip raw) = Raise x ->
  filter_segments (pre ++ raw :: post)%list s e = Raise x.
Proof.
  intros Hs Hd Hx. unfold filter_segments. unfold scan in Hs.
  rewrite for_loop_app, Hs. simpl.
  now rewrite (loop_body_raise _ _ _ _ _ Hd Hx).
Qed.

Lemma unreadable_duration_raises_witness :
  filter_segments (["#EXTINF:10,"; "a.ts"] ++ "#EXTINF:ten," :: ["b.ts"])%list 0 5 =
    Raise float_error.
Proof.
  eapply (unreadable_duration_raises 0 5 ["#EXTINF:10,"; "a.ts"] ["b.ts"] "#EXTINF:ten,");
    vm_compute; reflexivity.
Defined.

(** X5. A duration line without a colon raises [IndexError] when the scan
    reaches it: there is no second field to read the duration from. *)
Theorem duration_without_colon_raises (s e : Z) (pre post : list string) (raw : string)
  (st : loop_state) :
  scan s e pre = Ok (Next st) ->
  is_duration_line raw = true ->
  all_chars not_colon (strip raw) = true ->
  filter_segments (pre ++ raw :: post)%list s e =
    Raise (IndexError "list index out of range").
Proof.
  intros Hs Hd Hc. unfold filter_segments. unfold scan in Hs.
  rewrite for_loop_app, Hs. simpl.
  rewrite (loop_body_raise s e st raw (IndexError "list index out of range") Hd);
    [reflexivity|].
  unfold extinf_duration. now rewrite (split_no_sep _ Hc).
Qed.

Lemma duration_without_colon_raises_witness :
  filter_segments (["#EXTM3U"] ++ "#EXTINF 10" :: ["a.ts"])%list 0 5 =
    Raise (IndexError "list index out of range").
Proof.
  eapply (duration_without_colon_raises 0 5 ["#EXTM3U"] ["a.ts"] "#EXTINF 10");
    vm_compute; reflexivity.
Defined.

Lemma extinf_duration_raises (line : string) (x : exn) :
  extinf_duration line = Raise x ->
  x = IndexError "list index out of range" \/ x = float_error.
Proof.
  unfold extinf_duration.
  destruct (nth_error (split ":" line) 1) as [field|];
    [|intros H; inversion H; auto].
  unfold float_of_str.
  destruct (drop_underscores zero _) as [t|]; [|intros H; inversion H; auto].
  destruct (parse_sign t) as [neg u].
  destruct (String.eqb (lower u) "inf" || String.eqb (lower u) "infinity");
    [discriminate|].
  destruct (String.eqb (lower u) "nan"); [discriminate|].
  destruct (parse_decimal u) as [[m e']|]; [discriminate|].
  intros H; inversion H; auto.
Qed.

Lemma for_loop_raises (s e : Z) (lines : list string) (st0 : loop_state) (x : exn) :
  for_loop s e lines st0 = Raise x ->
  exists pre raw post st,
    lines = (pre ++ raw :: post)%list /\
    for_loop s e pre st0 = Ok (Next st) /\
    is_duration_line raw = true /\
    extinf_duration (strip raw) = Raise x.
Proof.
  revert st0. induction lines as [|raw rest IH]; intros st0; simpl; [discriminate|].
  body_cases s e st0 raw; rewrite Hb; simpl; try discriminate.
  - intros H. destruct (IH _ H) as (pre & r & post & st & -> & Hs & Hr & Hx).
    exists (raw :: pre), r, post, st. simpl. rewrite Hb. simpl. auto.
  - intros H. inversion H; subst x. exists [], raw, rest, st0. simpl. auto.
  - intros H. destruct (IH _ H) as (pre & r & post & st & -> & Hs & Hr & Hx').
    exists (raw :: pre), r, post, st. simpl. rewrite Hb. simpl. auto.
Qed.

(** X6. [filter_segments] raises nothing but the [IndexError] of a
    duration line without a second field and the [ValueError] of [float];
    when it raises, the scan has reached a duration line whose duration
    cannot be read, and the exception is the one of that line. *)
Theorem raises_only_at_unreadable_duration (lines : list string) (s e : Z) (x : exn) :
  filter_segments lines s e = Raise x ->
  (x = IndexError "list index out of range" \/ x = float_error) /\
  exists pre raw post st,
    lines = (pre ++ raw :: post)%list /\
    scan s e pre = Ok (Next st) /\
    is_duration_line raw = true /\
    extinf_duration (strip raw) = Raise x.
Proof.
  unfold filter_segments. intros H.
  destruct (for_loop s e lines init_state) as [f|y] eqn:Hf; simpl in H; [discriminate|].
  inversion H; subst y.
  destruct (for_loop_raises _ _ _ _ _ Hf) as (pre & raw & post & st & E & Hs & Hd & Hx).
  split; [exact (extinf_duration_raises _ _ Hx)|].
  exists pre, raw, post, st. auto.
Qed.

Lemma raises_only_at_unreadable_duration_witness :
  (float_error = IndexError "list index out of range" \/ float_error = float_error) /\
  exists pre raw post st,
    ["#EXTINF:10,"; "a.ts"; "#EXTINF:ten,"; "b.ts"] = (pre ++ raw :: post)%list /\
    scan 0 20 pre = Ok (Next st) /\
    is_duration_line raw = true /\
    extinf_duration (strip raw) = Raise float_error.
Proof.
  apply (raises_only_at_unreadable_duration
           ["#EXTINF:10,"; "a.ts"; "#EXTINF:ten,"; "b.ts"] 0 20 float_error).
  vm_compute. reflexivity.
Defined.

(** X7. When the duration of every duration line can be read,
    [filter_segments] returns, for every window. *)
Theorem readable_playlist_returns (lines : list string) (s e : Z) :
  (forall raw, In raw lines -> is_duration_line raw = true ->
               exists d, extinf_duration (strip raw) = Ok d) ->
  exists out, filter_segments lines s e = Ok out.
Proof.
  intros Hread. unfold filter_segments.
  destruct (for_loop_returns s e lines init_state Hread) as [f ->]. simpl. eauto.
Qed.

Lemma readable_playlist_returns_witness :
  exists out, filter_segments ["#EXTM3U"; "#EXTINF:1e1,"; "a.ts"] 0 20 = Ok out.
Proof.
  apply (readable_playlist_returns ["#EXTM3U"; "#EXTINF:1e1,"; "a.ts"] 0 20).
  intros raw [<- | [<- | [<- | []]]] Hd; try discriminate Hd.
  exists (b64_of_Z 10). vm_compute. reflexivity.
Defined.

(** ** Durations followed by a title *)

Lemma all_chars_app (q : ascii -> bool) (a b : string) :
  all_chars q (a ++ b) = all_chars q a && all_chars q b.
Proof.
  induction a as [|c a IH]; simpl; [reflexivity|].
  now rewrite IH, andb_assoc.
Qed.

Lemma rstrip_by_all (p q : ascii -> bool) (s : string) :
  (forall c, p c = true -> q c = true) ->
  all_chars q (rstrip_by p s) = true -> all_chars q s = true.
Proof.
  intros Hpq. induction s as [|c s IH]; simpl; [reflexivity|].
  destruct (rstrip_by p s) as [|c' r] eqn:E.
  - destruct (p c) eqn:Hc.
    + intros _. now rewrite (Hpq _ Hc), IH.
    + simpl. rewrite andb_true_r. intros ->. now rewrite IH.
  - simpl. simpl in IH. intros H. apply andb_true_iff in H. destruct H as [-> H].
    now rewrite IH.
Qed.

Lemma rstrip_by_nonempty (p : ascii -> bool) (s : string) :
  all_chars p s = false -> rstrip_by p s <> EmptyString.
Proof.
  induction s as [|c s IH]; simpl; [discriminate|].
  intros H. destruct (rstrip_by p s) as [|c' r] eqn:E; [|discriminate].
  destruct (p c) eqn:Hc; [|discriminate].
  simpl in H. exfalso. now apply IH.
Qed.

(** Stripping at the right end only touches a tail that is not all made of
    the characters stripped. *)
Lemma rstrip_by_app (p : ascii -> bool) (a b : string) :
  all_chars p b = false ->
  rstrip_by p (a ++ b) = a ++ rstrip_by p b.
Proof.
  intros Hb. induction a as [|c a IH]; simpl; [reflexivity|].
  rewrite IH. destruct (a ++ rstrip_by p b) as [|c' r] eqn:E; [|reflexivity].
  exfalso. destruct a; simpl in E; [|discriminate].
  now apply (rstrip_by_nonempty p b).
Qed.

Lemma drop_underscores_all (q : ascii -> bool) (prev : ascii) (s t : string) :
  q "_"%char = true ->
  drop_underscores prev s = Some t ->
  all_chars q t = true -> all_chars q s = true.
Proof.
  intros Hu. revert prev t. induction s as [|c s IH]; intros prev t; simpl; [reflexivity|].
  unfold is_char at 1. destruct (Ascii.eqb c "_") eqn:E.
  - apply Ascii.eqb_eq in E. subst c. rewrite Hu.
    destruct (is_digit prev); [|discriminate]. intros H Ht. simpl. eauto.
  - destruct (is_char prev "_" && negb (is_digit c)); [discriminate|].
    destruct (drop_underscores c s) as [t'|] eqn:Hd; simpl; [|discriminate].
    intros H Ht. inversion H; subst t. simpl in Ht.
    apply andb_true_iff in Ht. destruct Ht as [-> Ht]. simpl. eauto.
Qed.

Lemma span_digits_all (q : ascii -> bool) (s : string) (acc count v n : Z) (rest : string) :
  (forall c, is_digit c = true -> q c = true) ->
  span_digits s acc count = (v, n, rest) ->
  all_chars q rest = true -> all_chars q s = true.
Proof.
  intros Hd. revert acc count. induction s as [|c s IH]; intros acc count; simpl.
  - intros H. inversion H. auto.
  - destruct (is_digit c) eqn:Hc.
    + intros H Hr. now rewrite (Hd _ Hc), (IH _ _ H Hr).
    + intros H. inversion H; subst. auto.
Qed.

Lemma float_char_digit (c : ascii) : is_digit c = true -> float_char c = true.
Proof.
  intros H. unfold float_char. rewrite H. now rewrite !orb_true_r.
Qed.

Lemma parse_exponent_chars (s : string) (e : Z) :
  parse_exponent s = Some e -> all_chars float_char s = true.
Proof.
  destruct s as [|c r]; simpl; [reflexivity|].
  destruct (is_char c "e" || is_char c "E") eqn:Hc; [|discriminate].
  destruct (parse_sign r) as [neg r1] eqn:Hs.
  destruct (span_digits r1 0 0) as [[v n] rest] eqn:Hd.
  destruct (n =? 0); [discriminate|].
  destruct rest; [|discriminate]. intros _.
  assert (Hfc : float_char c = true).
  { unfold float_char. apply orb_true_iff in Hc. destruct Hc as [-> | ->];
      now rewrite !orb_true_r. }
  rewrite Hfc. simpl.
  apply (parse_sign_all float_char r r1 neg); try reflexivity; [exact Hs|].
  apply (span_digits_all float_char _ _ _ _ _ _ float_char_digit Hd). reflexivity.
Qed.

Lemma parse_decimal_chars (s : string) (m e : Z) :
  parse_decimal s = Some (m, e) -> all_chars float_char s = true.
Proof.
  unfold parse_decimal.
  destruct (span_digits s 0 0) as [[m1 n1] r1] eqn:H1.
  intros H. apply (span_digits_all float_char _ _ _ _ _ _ float_char_digit H1).
  destruct r1 as [|c r]; [reflexivity|].
  unfold is_char in H. destruct (Ascii.eqb c ".") eqn:Hc.
  - apply Ascii.eqb_eq in Hc. subst c.
    destruct (span_digits r m1 0) as [[m2 n2] r2] eqn:H2.
    destruct (n1 + n2 =? 0); [discriminate|].
    destruct (parse_exponent r2) as [e'|] eqn:He; [|discriminate].
    simpl. apply (span_digits_all float_char _ _ _ _ _ _ float_char_digit H2).
    exact (parse_exponent_chars _ _ He).
  - destruct (n1 + 0 =? 0); [discriminate|].
    destruct (parse_exponent (String c r)) as [e'|] eqn:He; [|discriminate].
    exact (parse_exponent_chars _ _ He).
Qed.

Lemma lower_word (u : string) :
  all_chars word_letter (lower u) = true -> all_chars float_char u = true.
Proof.
  induction u as [|c u IH]; simpl; [reflexivity|].
  intros H. apply andb_true_iff in H. destruct H as [Hc Hu].
  rewrite (IH Hu). unfold float_char. rewrite Hc. now rewrite !orb_true_r.
Qed.

(** A text that [float] accepts is made of the characters of a float
    literal. *)
Lemma float_of_str_chars (s : string) (f : spec_float) :
  float_of_str s = Ok f -> all_chars float_char s = true.
Proof.
  unfold float_of_str. intros H.
  assert (Hws : forall c, isspace_numeric c = true -> float_char c = true).
  { intros c Hc. unfold float_char. now rewrite Hc. }
  apply (lstrip_by_all isspace_numeric float_char _ Hws).
  apply (rstrip_by_all isspace_numeric float_char _ Hws).
  destruct (drop_underscores zero _) as [t|] eqn:Hd; [|discriminate].
  apply (drop_underscores_all float_char _ _ _ eq_refl Hd).
  destruct (parse_sign t) as [neg u] eqn:Hs.
  apply (parse_sign_all float_char t u neg); try reflexivity; [exact Hs|].
  destruct (String.eqb (lower u) "inf") eqn:E1.
  { apply String.eqb_eq in E1. apply lower_word. now rewrite E1. }
  destruct (String.eqb (lower u) "infinity") eqn:E2.
  { apply String.eqb_eq in E2. apply lower_word. now rewrite E2. }
  destruct (String.eqb (lower u) "nan") eqn:E3.
  { apply String.eqb_eq in E3. apply lower_word. now rewrite E3. }
  simpl in H.
  destruct (parse_decimal u) as [[m e]|] eqn:Hp; [|discriminate].
  exact (parse_decimal_chars _ _ _ Hp).
Qed.

Lemma float_of_str_raises (s : string) (x : exn) :
  float_of_str s = Raise x -> x = float_error.
Proof.
  unfold float_of_str.
  destruct (drop_underscores zero _) as [t|]; [|intros H; now inversion H].
  destruct (parse_sign t) as [neg u].
  destruct (String.eqb (lower u) "inf" || String.eqb (lower u) "infinity");
    [discriminate|].
  destruct (String.eqb (lower u) "nan"); [discriminate|].
  destruct (parse_decimal u) as [[m e']|]; [discriminate|].
  intros H; now inversion H.
Qed.

Lemma string_app_assoc (a b c : string) : (a ++ b) ++ c = a ++ b ++ c.
Proof.
  induction a as [|x a IH]; simpl; [reflexivity | now rewrite IH].
Qed.

Lemma all_chars_inside (q : ascii -> bool) (a : string) (c : ascii) (b : string) :
  all_chars q (a ++ String c b) = true -> q c = true.
Proof.
  rewrite all_chars_app. simpl. intros H.
  apply andb_true_iff in H. destruct H as [_ H].
  apply andb_true_iff in H. tauto.
Qed.

(** X8. A duration line that carries a title after the comma, as in
    [#EXTINF:10.0,Title], makes [filter_segments] raise the [ValueError]
    of [float] when the scan reaches it: only commas at the very end are
    removed before the duration is read. *)
Theorem titled_duration_raises (s e : Z) (pre post : list string) (raw d title : string)
  (st : loop_state) :
  scan s e pre = Ok (Next st) ->
  strip raw = "#EXTINF:" ++ d ++ "," ++ title ->
  all_chars not_colon d = true ->
  all_chars not_colon title = true ->
  all_chars is_comma title = false ->
  filter_segments (pre ++ raw :: post)%list s e = Raise float_error.
Proof.
  intros Hs Hraw Hd Ht Hc. unfold filter_segments. unfold scan in Hs.
  rewrite for_loop_app, Hs. simpl.
  rewrite (loop_body_raise s e st raw float_error); [reflexivity | |].
  - unfold is_duration_line. rewrite Hraw. reflexivity.
  - rewrite Hraw. unfold extinf_duration.
    change ("#EXTINF:" ++ d ++ "," ++ title) with ("#EXTINF" ++ ":" ++ (d ++ "," ++ title)).
    rewrite split_field by reflexivity.
    rewrite split_no_sep
      by (rewrite !all_chars_app, Hd, Ht; reflexivity).
    simpl nth_error. unfold rstrip_comma.
    change (fun c : ascii => Ascii.eqb c ",") with is_comma.
    change (d ++ String ","%char title) with (d ++ "," ++ title).
    rewrite <- (string_app_assoc d "," title).
    rewrite (rstrip_by_app is_comma (d ++ ",") title Hc).
    destruct (float_of_str _) as [f|x] eqn:Hf.
    + apply float_of_str_chars in Hf.
      rewrite ?string_app_assoc in Hf.
      apply (all_chars_inside float_char d ","%char) in Hf.
      vm_compute in Hf. discriminate.
    + now rewrite (float_of_str_raises _ _ Hf).
Qed.

Lemma titled_duration_raises_witness :
  filter_segments (["#EXTM3U"] ++ "#EXTINF:10.0,Title" :: ["a.ts"])%list 0 20 =
    Raise float_error.
Proof.
  eapply (titled_duration_raises 0 20 ["#EXTM3U"] ["a.ts"] "#EXTINF:10.0,Title"
            "10.0" "Title"); vm_compute; reflexivity.
Defined.

(** ** The runs of [parse_m3u8] that write a file *)

Section ParseRuns.

Variable max_str_digits : Z.
Variable http_get : string -> response.
Variable urljoin : string -> string -> string.


(** X10. [parse_m3u8] touches a file only after the filter has returned:
    if an event of its trace opens, writes or closes a file, then the GET
    succeeded, both times were well formed with the start before the end,
    and the filter returned. *)
Theorem file_only_after_filter (url start_time end_time output_file : string) (ev : event) :
  In ev (fst (parse_m3u8 max_str_digits http_get urljoin
                url start_time end_time output_file)) ->
  is_file_event ev = true ->
  exists text a b filtered,
    http_get url = Response text /\
    time_to_seconds max_str_digits start_time = Ok a /\
    time_to_seconds max_str_digits end_time = Ok b /\
    a < b /\
    filter_segments (splitlines text) a b = Ok filtered.
Proof.
  unfold parse_m3u8.
  destruct (http_get url) as [text|msg|e] eqn:Hget; simpl.
  - destruct (time_to_seconds max_str_digits start_time) as [a|x] eqn:Ha; simpl.
    + destruct (time_to_seconds max_str_digits end_time) as [b|x] eqn:Hb; simpl.
      * destruct (b <=? a) eqn:Hle; simpl.
        -- intros [<- | []]. discriminate.
        -- destruct (filter_segments (splitlines text) a b) as [filtered|x] eqn:Hf; simpl.
           ++ intros _ _. exists text, a, b, filtered. apply Z.leb_gt in Hle. auto.
           ++ intros [<- | []]. discriminate.
      * intros [<- | []]. discriminate.
    + intros [<- | []]. discriminate.
  - intros [<- | [<- | []]]; discriminate.
  - intros [<- | []]. discriminate.
Qed.

End ParseRuns.


Lemma file_only_after_filter_witness :
  exists text a b filtered,
    Response ("#EXTM3U" ++ nl ++ "#EXTINF:4," ++ nl ++ "a.ts" ++ nl) = Response text /\
    time_to_seconds 4300 "00:00:00" = Ok a /\
    time_to_seconds 4300 "00:00:05" = Ok b /\
    a < b /\
    filter_segments (splitlines text) a b = Ok filtered.
Proof.
  apply (file_only_after_filter 4300
           (fun _ => Response ("#EXTM3U" ++ nl ++ "#EXTINF:4," ++ nl ++ "a.ts" ++ nl))
           (fun base _ => "http://host/live")
           "http://host/live/index.m3u8" "00:00:00" "00:00:05" "cut.m3u8"
           (EvOpen "cut.m3u8")).
  - right. left. reflexivity.
  - reflexivity.
Defined.

(** ** The name of the converted file *)

Lemma prefix_split (a s : string) :
  String.prefix a s = true -> exists r, s = a ++ r.
Proof.
  revert s. induction a as [|x a IH]; intros s.
  - intros _. exists s. reflexivity.
  - destruct s as [|y s]; simpl; [discriminate|].
    destruct (ascii_dec x y) as [->|]; [|discriminate].
    intros H. destruct (IH _ H) as [r ->]. exists r. reflexivity.
Qed.

Lemma prefix_intro (a r : string) : String.prefix a (a ++ r) = true.
Proof.
  induction a as [|x a IH]; simpl; [destruct r; reflexivity|].
  destruct (ascii_dec x x); [exact IH | congruence].
Qed.

Lemma prefix_length (a s : string) :
  String.prefix a s = true -> (String.length a <= String.length s)%nat.
Proof.
  intros H. destruct (prefix_split _ _ H) as [r ->].
  rewrite string_length_app. lia.
Qed.

Lemma prefix_app (a s x : string) :
  String.prefix a s = true -> String.prefix a (s ++ x) = true.
Proof.
  intros H. destruct (prefix_split _ _ H) as [r ->].
  rewrite string_app_assoc. apply prefix_intro.
Qed.

Lemma replace_from_cons (old new : string) (c : ascii) (s : string) :
  replace_from old new 0 (String c s) =
    if String.prefix old (String c s)
    then new ++ replace_from old new (String.length old - 1) s
    else String c (replace_from old new 0 s).
Proof. reflexivity. Qed.

(** A text without an occurrence of [old] is left as it is. *)
Lemma replace_from_absent (old new s : string) :
  contains s old = false -> replace_from old new 0 s = s.
Proof.
  induction s as [|c s IH]; [reflexivity|].
  intros H.
  change (contains (String c s) old)
    with (String.prefix old (String c s) || contains s old) in H.
  apply orb_false_iff in H. destruct H as [Hp Hc].
  rewrite replace_from_cons, Hp, (IH Hc). reflexivity.
Qed.

(** An occurrence of [.m3u8] that starts before the end of a text does not
    reach beyond it into a following [.m3u8]. *)
Lemma no_straddle (c : ascii) (stem : string) :
  String.prefix ".m3u8" (String c stem ++ ".m3u8") = true ->
  String.prefix ".m3u8" (String c stem) = true.
Proof.
  intros H. destruct (prefix_split _ _ H) as [r E].
  destruct stem as [|c2 [|c3 [|c4 [|c5 rest]]]]; simpl in E; try discriminate E.
  injection E as -> -> -> -> -> _.
  apply (prefix_intro ".m3u8" rest).
Qed.

Lemma replace_from_suffix (stem : string) (k : nat) :
  (k <= String.length stem)%nat ->
  replace_from ".m3u8" ".mp4" k (stem ++ ".m3u8") =
    replace_from ".m3u8" ".mp4" k stem ++ ".mp4".
Proof.
  revert k. induction stem as [|c stem IH]; intros k Hk.
  - simpl in Hk. assert (k = 0%nat) by lia. subst k. reflexivity.
  - destruct k as [|k].
    + change (String c stem ++ ".m3u8") with (String c (stem ++ ".m3u8")).
      rewrite !replace_from_cons.
      change (String.length ".m3u8" - 1)%nat with 4%nat.
      destruct (String.prefix ".m3u8" (String c (stem ++ ".m3u8"))) eqn:Hp.
      * pose proof (no_straddle c stem Hp) as Hq. rewrite Hq.
        apply prefix_length in Hq. simpl in Hq.
        rewrite IH by lia. now rewrite string_app_assoc.
      * destruct (String.prefix ".m3u8" (String c stem)) eqn:Hq.
        -- apply (prefix_app _ _ ".m3u8") in Hq.
           change (String c stem ++ ".m3u8") with (String c (stem ++ ".m3u8")) in Hq.
           congruence.
        -- rewrite IH by lia. reflexivity.
    + simpl. simpl in Hk. apply IH. lia.
Qed.

(** X11. [replace] leaves a text without an occurrence of [old] as it is:
    for an output file whose name holds no [.m3u8], the name of the
    converted file is the name of the playlist itself. *)
Theorem replace_without_occurrence (s old new : string) :
  contains s old = false -> replace s old new = s.
Proof.
  intros H. unfold replace. destruct old as [|c old].
  - destruct s; discriminate H.
  - now apply replace_from_absent.
Qed.

Lemma replace_without_occurrence_witness :
  replace "cut.txt" ".m3u8" ".mp4" = "cut.txt".
Proof.
  apply (replace_without_occurrence "cut.txt" ".m3u8" ".mp4"). reflexivity.
Defined.

(** X12. For an output file [stem.m3u8] the name of the converted file
    ends in [.mp4] in place of the final [.m3u8], and the stem before it is
    rewritten in the same way; a stem that holds no [.m3u8] is kept, so
    [stem.m3u8] gives [stem.mp4]. *)
Theorem replace_playlist_suffix (stem : string) :
  replace (stem ++ ".m3u8") ".m3u8" ".mp4" = replace stem ".m3u8" ".mp4" ++ ".mp4" /\
  (contains stem ".m3u8" = false ->
   replace (stem ++ ".m3u8") ".m3u8" ".mp4" = stem ++ ".mp4").
Proof.
  assert (H : replace (stem ++ ".m3u8") ".m3u8" ".mp4" =
              replace stem ".m3u8" ".mp4" ++ ".mp4").
  { unfold replace. apply replace_from_suffix. lia. }
  split; [exact H|].
  intros Hc. rewrite H. unfold replace. now rewrite replace_from_absent.
Qed.

Lemma replace_playlist_suffix_witness :
  replace ("out/cut.v2" ++ ".m3u8") ".m3u8" ".mp4" = "out/cut.v2" ++ ".mp4".
Proof.
  apply (proj2 (replace_playlist_suffix "out/cut.v2")). reflexivity.
Defined.

(** ** [main] and the conversion *)

Section EntryRuns.

Variable max_str_digits : Z.
Variable http_get : string -> response.
Variable urljoin : string -> string -> string.
Variable run_process : list string -> process_result.

(** What [convert_to_mp4] does after it has started the process. *)
Lemma convert_to_mp4_trace (m3u8_file output_mp4 : string) :
  exists after,
    fst (convert_to_mp4 run_process m3u8_file output_mp4) =
      Run (ffmpeg_command m3u8_file output_mp4) :: after /\
    forallb (fun a => negb (is_run a)) after = true /\
    (List.length after <= 1)%nat.
Proof.
  unfold convert_to_mp4, ffmpeg_command.
  destruct (run_process _) as [code|msg]; [destruct (code =? 0)|]; simpl;
    eexists; repeat split; simpl; auto.
Qed.

Lemma map_io_no_run (tr : list event) :
  forallb (fun a => negb (is_run a)) (map Io tr) = true.
Proof.
  induction tr as [|ev tr IH]; simpl; auto.
Qed.

(** The part of [main] before the conversion. *)
Lemma main_trace (args : arguments) :
  exists reports,
    (List.length reports <= 1)%nat /\
    forallb (fun a => negb (is_run a)) reports = true /\
    fst (main max_str_digits http_get urljoin run_process args) =
      (map Io (fst (parse_m3u8 max_str_digits http_get urljoin (args_url args)
                       (args_start_time args) (args_end_time args) (args_output_file args))) ++ reports ++
       (if args_convert args
        then fst (convert_to_mp4 run_process (args_output_file args)
                    (replace (args_output_file args) ".m3u8" ".mp4"))
        else []))%list.
Proof.
  unfold main.
  destruct (parse_m3u8 _ _ _ _ _ _ _) as [tr r]. simpl.
  destruct (convert_to_mp4 _ _ _) as [tr' o] eqn:Hc.
  exists (match r with
          | Ok _ => []
          | Raise (ValueError msg) => [Report "Error: " (ValueError msg)]
          | Raise e => [Report "An unexpected error occurred: " e]
          end).
  repeat split.
  - destruct r as [u|[m|m|c m]]; simpl; lia.
  - destruct r as [u|[m|m|c m]]; reflexivity.
  - destruct (args_convert args); simpl; [reflexivity | now rewrite app_nil_r].
Qed.

(** X13. With [--convert] set, [main] starts the conversion whatever
    [parse_m3u8] has done, also after a failed download or an exception:
    one process is started, after everything else, on the output file and
    on its name with [.m3u8] replaced by [.mp4]. *)
Theorem conversion_whatever_parse_does (args : arguments) :
  args_convert args = true ->
  exists before after,
    fst (main max_str_digits http_get urljoin run_process args) =
      (before ++
       Run (ffmpeg_command (args_output_file args)
              (replace (args_output_file args) ".m3u8" ".mp4")) :: after)%list /\
    forallb (fun a => negb (is_run a)) (before ++ after)%list = true /\
    (exists reports, before = (map Io (fst (parse_m3u8 max_str_digits http_get urljoin (args_url args)
                       (args_start_time args) (args_end_time args) (args_output_file args))) ++ reports)%list /\
                     (List.length reports <= 1)%nat) /\
    (List.length after <= 1)%nat.
Proof.
  intros Hc. destruct (main_trace args) as (reports & Hlen & Hnr & E).
  rewrite Hc in E.
  destruct (convert_to_mp4_trace (args_output_file args)
              (replace (args_output_file args) ".m3u8" ".mp4"))
    as (after & Ea & Hna & Hla).
  rewrite Ea in E.
  exists (map Io (fst (parse_m3u8 max_str_digits http_get urljoin (args_url args)
                       (args_start_time args) (args_end_time args) (args_output_file args))) ++ reports)%list, after.
  repeat split.
  - rewrite E. now rewrite <- app_assoc.
  - rewrite !forallb_app, map_io_no_run, Hnr, Hna. reflexivity.
  - exists reports. auto.
  - exact Hla.
Qed.

(** X14. [main] lets an exception out in one case only: the conversion is
    asked for and the process cannot be started.  The exceptions of
    [parse_m3u8] never leave it. *)
Theorem main_escapes_only_on_launch_failure (args : arguments) (msg : string) :
  snd (main max_str_digits http_get urljoin run_process args) = Escaped msg <->
  args_convert args = true /\
  run_process (ffmpeg_command (args_output_file args)
                 (replace (args_output_file args) ".m3u8" ".mp4")) = LaunchFailed msg.
Proof.
  unfold main, convert_to_mp4, ffmpeg_command.
  destruct (parse_m3u8 _ _ _ _ _ _ _) as [tr r].
  destruct (args_convert args); simpl.
  - destruct (run_process _) as [code|m]; [destruct (code =? 0)|]; simpl;
      split; try discriminate; try (intros [_ H]; discriminate H).
    + intros H. inversion H. auto.
    + intros [_ H]. inversion H. reflexivity.
  - split; [discriminate | intros [H _]; discriminate].
Qed.

(** X15. An exception of [filter_segments] is caught by [main] and printed
    right after the GET, before any conversion: behind [Error: ] when it is
    the [ValueError] of [float], behind [An unexpected error occurred: ]
    when it is the [IndexError] of a duration line without a colon. *)
Theorem filter_exception_reported (args : arguments) (text : string) (a b : Z) (x : exn) :
  http_get (args_url args) = Response text ->
  time_to_seconds max_str_digits (args_start_time args) = Ok a ->
  time_to_seconds max_str_digits (args_end_time args) = Ok b ->
  a < b ->
  filter_segments (splitlines text) a b = Raise x ->
  fst (main max_str_digits http_get urljoin run_process args) =
    (Io (EvGet (args_url args)) :: Report (report_prefix x) x ::
     (if args_convert args
      then fst (convert_to_mp4 run_process (args_output_file args)
                  (replace (args_output_file args) ".m3u8" ".mp4"))
      else []))%list.
Proof.
  intros Hget Ha Hb Hlt Hf. unfold main, parse_m3u8.
  rewrite Hget. simpl. rewrite Ha. simpl. rewrite Hb. simpl.
  assert (Hle : (b <=? a) = false) by (apply Z.leb_gt; exact Hlt).
  rewrite Hle, Hf. simpl.
  destruct (convert_to_mp4 _ _ _) as [tr' o].
  destruct (args_convert args); destruct x as [m|m|c m]; reflexivity.
Qed.

(** X16. With [--convert] set and an output file whose name holds no
    [.m3u8], the process is started with the playlist as its input and as
    its output. *)
Theorem conversion_onto_playlist (args : arguments) :
  args_convert args = true ->
  contains (args_output_file args) ".m3u8" = false ->
  In (Run (ffmpeg_command (args_output_file args) (args_output_file args)))
     (fst (main max_str_digits http_get urljoin run_process args)).
Proof.
  intros Hc Hn. destruct (main_trace args) as (reports & _ & _ & E).
  rewrite E, Hc.
  destruct (convert_to_mp4_trace (args_output_file args)
              (replace (args_output_file args) ".m3u8" ".mp4"))
    as (after & Ea & _ & _).
  rewrite Ea. unfold replace. rewrite (replace_from_absent _ _ _ Hn).
  apply in_or_app. right. apply in_or_app. right. left. reflexivity.
Qed.

End EntryRuns.

Lemma conversion_whatever_parse_does_witness :
  exists before after,
    fst (main 4300 (fun _ => RequestException "timed out") (fun base _ => base)
           (fun _ => Exited 0)
           (mkArgs "http://host/live/index.m3u8" "00:00:00" "00:00:05" "cut.m3u8" true)) =
      (before ++ Run (ffmpeg_command "cut.m3u8" "cut.mp4") :: after)%list /\
    forallb (fun a => negb (is_run a)) (before ++ after)%list = true.
Proof.
  destruct (conversion_whatever_parse_does 4300
              (fun _ => RequestException "timed out") (fun base _ => base)
              (fun _ => Exited 0)
              (mkArgs "http://host/live/index.m3u8" "00:00:00" "00:00:05" "cut.m3u8" true)
              eq_refl) as (before & after & E & Hn & _ & _).
  exists before, after. split; [exact E | exact Hn].
Defined.

Lemma main_escapes_only_on_launch_failure_witness :
  snd (main 4300 (fun _ => Response "#EXTM3U") (fun base _ => base)
         (fun _ => LaunchFailed "No such file or directory: 'ffmpeg'")
         (mkArgs "http://host/live/index.m3u8" "00:00:00" "00:00:05" "cut.m3u8" true)) =
  Escaped "No such file or directory: 'ffmpeg'".
Proof.
  apply (proj2 (main_escapes_only_on_launch_failure 4300
                  (fun _ => Response "#EXTM3U") (fun base _ => base)
                  (fun _ => LaunchFailed "No such file or directory: 'ffmpeg'")
                  (mkArgs "http://host/live/index.m3u8" "00:00:00" "00:00:05" "cut.m3u8" true)
                  "No such file or directory: 'ffmpeg'")).
  split; reflexivity.
Defined.

Lemma filter_exception_reported_witness :
  fst (main 4300 (fun _ => Response ("#EXTM3U" ++ nl ++ "#EXTINF 10" ++ nl ++ "a.ts"))
         (fun base _ => base) (fun _ => Exited 0)
         (mkArgs "http://host/live/index.m3u8" "00:00:00" "00:00:05" "cut.m3u8" false)) =
  [Io (EvGet "http://host/live/index.m3u8");
   Report "An unexpected error occurred: " (IndexError "list index out of range")].
Proof.
  apply (filter_exception_reported 4300
           (fun _ => Response ("#EXTM3U" ++ nl ++ "#EXTINF 10" ++ nl ++ "a.ts"))
           (fun base _ => base) (fun _ => Exited 0)
           (mkArgs "http://host/live/index.m3u8" "00:00:00" "00:00:05" "cut.m3u8" false)
           ("#EXTM3U" ++ nl ++ "#EXTINF 10" ++ nl ++ "a.ts") 0 5
           (IndexError "list index out of range"));
    reflexivity.
Defined.

Lemma conversion_onto_playlist_witness :
  In (Run (ffmpeg_command "cut.txt" "cut.txt"))
     (fst (main 4300 (fun _ => Response "#EXTM3U") (fun base _ => base)
             (fun _ => Exited 0)
             (mkArgs "http://host/live/index.m3u8" "00:00:00" "00:00:05" "cut.txt" true))).
Proof.
  apply (conversion_onto_playlist 4300 (fun _ => Response "#EXTM3U") (fun base _ => base)
           (fun _ => Exited 0)
           (mkArgs "http://host/live/index.m3u8" "00:00:00" "00:00:05" "cut.txt" true));
    reflexivity.
Defined.

(** ** Lines read and lines written *)

Lemma splitlines_from_one_line (n : nat) :
  forall s cur,
    (String.length s <= n)%nat ->
    one_line cur = true ->
    Forall (fun l => one_line l = true) (splitlines_from cur s).
Proof.
  induction n as [|n IH]; intros s cur Hlen Hcur.
  - destruct s; [|simpl in Hlen; lia]. simpl.
    destruct (String.eqb cur EmptyString); auto.
  - destruct s as [|c s']; simpl.
    + destruct (String.eqb cur EmptyString); auto.
    + simpl in Hlen. destruct (is_linebreak c) eqn:Hc.
      * constructor; [exact Hcur|].
        destruct s' as [|c' s'']; [constructor|].
        destruct ((code c =? 13) && (code c' =? 10));
          apply IH; simpl in *; try lia; reflexivity.
      * apply IH; [lia|]. unfold one_line. rewrite all_chars_app.
        unfold one_line in Hcur. rewrite Hcur. simpl.
        unfold not_linebreak. now rewrite Hc.
Qed.

Lemma lstrip_by_keeps (p q : ascii -> bool) (s : string) :
  all_chars q s = true -> all_chars q (lstrip_by p s) = true.
Proof.
  induction s as [|c s IH]; simpl; [reflexivity|].
  intros H. destruct (p c); [|exact H].
  apply andb_true_iff in H. tauto.
Qed.

Lemma rstrip_by_keeps (p q : ascii -> bool) (s : string) :
  all_chars q s = true -> all_chars q (rstrip_by p s) = true.
Proof.
  induction s as [|c s IH]; simpl; [reflexivity|].
  intros H. apply andb_true_iff in H. destruct H as [Hc Hs].
  specialize (IH Hs).
  destruct (rstrip_by p s) as [|c' r].
  - destruct (p c); simpl; [reflexivity | now rewrite Hc].
  - simpl. simpl in IH. now rewrite Hc, IH.
Qed.

(** X17. The lines that [filter_segments] keeps from the lines of a text,
    as [splitlines] cuts them, hold no line boundary: each is one line. *)
Theorem kept_lines_are_single_lines (text : string) (s e : Z) (out : list string) (l : string) :
  filter_segments (splitlines text) s e = Ok out ->
  In l out ->
  one_line l = true.
Proof.
  unfold filter_segments. intros H Hin. apply bind_ok in H.
  destruct H as (f & Hf & Hout). inversion Hout; subst out.
  destruct (for_loop_copies _ _ _ _ _ Hf) as (count & _ & _ & E).
  rewrite E in Hin. simpl in Hin.
  destruct (copies_in _ _ _ Hin) as (raw & Hraw & ->).
  unfold strip, one_line. apply rstrip_by_keeps, lstrip_by_keeps.
  pose proof (splitlines_from_one_line (String.length text) text EmptyString
                (Nat.le_refl _) eq_refl) as Hall.
  rewrite Forall_forall in Hall. apply (Hall raw Hraw).
Qed.

Lemma kept_lines_are_single_lines_witness : one_line "a.ts" = true.
Proof.
  apply (kept_lines_are_single_lines ("#EXTINF:4," ++ nl ++ " a.ts " ++ nl) 0 5
           ["#EXTINF:4,"; "a.ts"] "a.ts").
  - vm_compute. reflexivity.
  - right. left. reflexivity.
Defined.

Lemma string_app_nil_r (s : string) : s ++ "" = s.
Proof.
  induction s as [|c s IH]; simpl; [reflexivity | now rewrite IH].
Qed.

(** A line without a boundary, followed by a newline, is read back as
    itself. *)
Lemma splitlines_from_line (l rest cur : string) :
  one_line l = true ->
  splitlines_from cur (l ++ nl ++ rest) = (cur ++ l) :: splitlines_from EmptyString rest.
Proof.
  revert cur. induction l as [|c l IH]; intros cur Hl.
  - rewrite string_app_nil_r. simpl. destruct rest; reflexivity.
  - unfold one_line in Hl. simpl in Hl. apply andb_true_iff in Hl.
    destruct Hl as [Hc Hl]. unfold not_linebreak in Hc. apply negb_true_iff in Hc.
    simpl. rewrite Hc. rewrite (IH _ Hl). now rewrite string_app_assoc.
Qed.

Lemma output_record_resolved (base_url line : string) :
  output_record base_url line = resolved base_url line ++ nl.
Proof.
  unfold output_record, resolved. destruct (endswith line ".ts"); [|reflexivity].
  now rewrite !string_app_assoc.
Qed.

Lemma resolved_one_line (base_url line : string) :
  one_line base_url = true -> one_line line = true ->
  one_line (resolved base_url line) = true.
Proof.
  unfold resolved, one_line. intros Hb Hl.
  destruct (endswith line ".ts"); [|exact Hl].
  rewrite !all_chars_app, Hb, Hl. reflexivity.
Qed.

Lemma concat_records (r : string) (rs : list string) :
  String.concat "" (r :: rs) = r ++ String.concat "" rs.
Proof.
  destruct rs; simpl; [now rewrite string_app_nil_r | reflexivity].
Qed.

Lemma splitlines_records (base_url : string) (lines : list string) (rest : string) :
  one_line base_url = true ->
  Forall (fun l => one_line l = true) lines ->
  splitlines_from EmptyString
    (String.concat "" (map (output_record base_url) lines) ++ rest) =
    (map (resolved base_url) lines ++ splitlines_from EmptyString rest)%list.
Proof.
  intros Hb Hall. induction Hall as [|l lines Hl Hall IH]; [reflexivity|].
  simpl map. rewrite concat_records, output_record_resolved, !string_app_assoc.
  rewrite splitlines_from_line by (apply resolved_one_line; assumption).
  simpl. now rewrite IH.
Qed.

(** X18. The file that [write_output] writes reads back line by line:
    when the base URL and the lines hold no line boundary, [splitlines] of
    the text of the file gives each line as it was written, the reference
    lines resolved against the base URL, and the end-of-list directive
    last. *)
Theorem written_file_reads_back (output_file base_url : string) (lines : list string) :
  one_line base_url = true ->
  Forall (fun l => one_line l = true) lines ->
  splitlines
    (String.concat ""
       (file_records output_file (fst (write_output output_file lines base_url)) [])) =
    (map (resolved base_url) lines ++ ["#EXT-X-ENDLIST"])%list.
Proof.
  intros Hb Hall. rewrite write_output_file. unfold splitlines.
  assert (E : forall rs x, String.concat "" (rs ++ [x])%list = String.concat "" rs ++ x).
  { induction rs as [|r rs IHrs]; intros x; [reflexivity|].
    change ((r :: rs) ++ [x])%list with (r :: (rs ++ [x]))%list.
    now rewrite !concat_records, IHrs, string_app_assoc. }
  rewrite E, (splitlines_records base_url lines _ Hb Hall). reflexivity.
Qed.

Lemma written_file_reads_back_witness :
  splitlines
    (String.concat ""
       (file_records "cut.m3u8"
          (fst (write_output "cut.m3u8" ["#EXTM3U"; "#EXTINF:4,"; "a.ts"]
                  "http://host/live")) [])) =
  ["#EXTM3U"; "#EXTINF:4,"; "http://host/live/a.ts"; "#EXT-X-ENDLIST"].
Proof.
  apply (written_file_reads_back "cut.m3u8" "http://host/live"
           ["#EXTM3U"; "#EXTINF:4,"; "a.ts"]).
  - reflexivity.
  - repeat constructor.
Defined.
